(** * Data Sweeper: the tabular pipeline of [growth.py]

    A shallow embedding of the pipeline that [growth.py] runs on the table
    [merged_df]: ingestion with header repair, merge, duplicate removal,
    mean imputation, column selection, scaling, outlier detection and export.

    The script delegates every table operation to pandas and scikit-learn.
    Each call is embedded as a function on an explicit column-major frame,
    following the behaviour of the call the script makes (the keyword
    arguments it passes, the defaults it relies on).

    Modelling conventions.
    - The cells of a frame hold exact rationals [Q]; numeric equality is
      [Qeq].  A missing entry (NaN) is the separate constructor [Missing].
      What depends on the rounding of the 64-bit floats is not stated on
      them: the arithmetic of [MinMaxScaler] is given on binary64 floats
      ([minmax_column_f64]), and the imputation is given relative to the
      mean pandas computes ([fill_missing_with]).
    - A column carries its dtype.  [select_dtypes(include=['number'])]
      selects by dtype, so an object column is not numeric even when every
      value it holds is a number.
    - Selection of columns by label is embedded position by position, which
      agrees with pandas whenever labels are distinct.  On a table with
      equal labels pandas selects every column of a label and lines 60 and
      82 raise; the properties of these stages carry the hypothesis
      [distinct_labels].
    - A string is the UTF-8 encoding of the Python string. *)

From Stdlib Require Import Floats.
From Stdlib Require Import String Ascii Bool Arith PeanoNat ZArith QArith Qround Lia Lqa List.
Import ListNotations.

Set Implicit Arguments.

(** ** Cells, columns, frames *)

Inductive cell : Type :=
| Num (q : Q)
| Text (s : string)
| Missing.

Inductive dtype : Type :=
| Numeric   (* int64 / float64 *)
| Object.   (* anything else   *)

Record column (L : Type) : Type := mkColumn {
  cname : L;
  cdtype : dtype;
  cvalues : list cell
}.

Record DataFrame (L : Type) : Type := mkFrame {
  index : list nat;
  columns : list (column L)
}.

(** A frame as a decoder returns it: string labels. *)
Definition RawFrame := DataFrame string.

(** The working table: after header repair a label is a cell of row 0. *)
Definition Frame := DataFrame cell.

(** Python exceptions the script can run into. *)
Inductive exn : Type :=
| IndexError
| KeyError
| ValueError
| NameError
| FileNotFoundError
| AttributeError.

Inductive result (A : Type) : Type :=
| Ok (a : A)
| Raise (e : exn).

Arguments Ok {A} a.
Arguments Raise {A} e.

Definition nrows {L} (df : DataFrame L) : nat := length (index df).

Definition labels {L} (df : DataFrame L) : list L := map (@cname L) (columns df).

(** Every column is as long as the index. *)
Definition well_formed {L} (df : DataFrame L) : Prop :=
  Forall (fun c => length (cvalues c) = nrows df) (columns df).

(** [DataFrame.empty]: some axis has length 0. *)
Definition empty {L} (df : DataFrame L) : bool :=
  match index df, columns df with
  | [], _ => true
  | _, [] => true
  | _, _ => false
  end.

Definition is_numeric {L} (c : column L) : bool :=
  match cdtype c with Numeric => true | Object => false end.

Definition is_missing (v : cell) : bool :=
  match v with Missing => true | _ => false end.

(** Equality of two cells as [duplicated] and label lookup see it: NaN
    matches NaN. *)
Definition cell_eqb (a b : cell) : bool :=
  match a, b with
  | Num x, Num y => Qeq_bool x y
  | Text s, Text t => String.eqb s t
  | Missing, Missing => true
  | _, _ => false
  end.

Fixpoint row_eqb (r s : list cell) : bool :=
  match r, s with
  | [], [] => true
  | a :: r', b :: s' => cell_eqb a b && row_eqb r' s'
  | _, _ => false
  end.

(** The first [n] rows of a list of columns. *)
Fixpoint rows_of (n : nat) (cols : list (list cell)) : list (list cell) :=
  match n with
  | O => []
  | S n' => map (hd Missing) cols :: rows_of n' (map (@tl cell) cols)
  end.

Definition rows {L} (df : DataFrame L) : list (list cell) :=
  rows_of (nrows df) (map (@cvalues L) (columns df)).

(** ** Remove Duplicates: [merged_df.drop_duplicates(inplace=True)] *)

(** [duplicated(keep='first')]: a row is marked when an earlier row equals
    it on every column. *)
Fixpoint duplicated_from (seen rs : list (list cell)) : list bool :=
  match rs with
  | [] => []
  | r :: rs' => existsb (row_eqb r) seen :: duplicated_from (seen ++ [r]) rs'
  end.

Definition duplicated {L} (df : DataFrame L) : list bool :=
  duplicated_from [] (rows df).

(** Boolean indexing with the negated mask: keep what is not marked. *)
Fixpoint drop_where {A} (mask : list bool) (l : list A) : list A :=
  match mask, l with
  | b :: m, x :: l' => if b then drop_where m l' else x :: drop_where m l'
  | _, _ => []
  end.

Definition drop_duplicates {L} (df : DataFrame L) : DataFrame L :=
  if empty df then df
  else
    let mask := duplicated df in
    {| index := drop_where mask (index df);
       columns := map (fun c => {| cname := cname c;
                                   cdtype := cdtype c;
                                   cvalues := drop_where mask (cvalues c) |})
                      (columns df) |}.

(** The scenario table [{a:[1,2,2,3]}]. *)
Definition table_a1223 : Frame :=
  {| index := [0; 1; 2; 3]%nat;
     columns := [ {| cname := Text "a"; cdtype := Numeric;
                     cvalues := [Num 1; Num 2; Num 2; Num 3] |} ] |}.

(** ** Ingestion of one file (lines 37-44) *)

(** The whitespace [str.strip()] removes, on the UTF-8 bytes: the one-byte
    characters U+0009-000D, U+001C-001F and U+0020, *)
Definition is_space (a : ascii) : bool :=
  let n := nat_of_ascii a in
  ((9 <=? n) && (n <=? 13)) || ((28 <=? n) && (n <=? 32)).

(** the two-byte characters U+0085 and U+00A0, *)
Definition is_space2 (a b : ascii) : bool :=
  (nat_of_ascii a =? 194)
  && ((nat_of_ascii b =? 133) || (nat_of_ascii b =? 160)).

(** and the three-byte characters U+1680, U+2000-200A, U+2028, U+2029,
    U+202F, U+205F and U+3000. *)
Definition is_space3 (a b c : ascii) : bool :=
  let x := nat_of_ascii a in
  let y := nat_of_ascii b in
  let z := nat_of_ascii c in
  ((x =? 225) && (y =? 154) && (z =? 128))
  || ((x =? 226) && (y =? 128)
      && (((128 <=? z) && (z <=? 138)) || (z =? 168) || (z =? 169) || (z =? 175)))
  || ((x =? 226) && (y =? 129) && (z =? 159))
  || ((x =? 227) && (y =? 128) && (z =? 128)).

Fixpoint lstrip (s : string) : string :=
  match s with
  | EmptyString => EmptyString
  | String a s1 =>
      if is_space a then lstrip s1
      else
        match s1 with
        | EmptyString => s
        | String b s2 =>
            if is_space2 a b then lstrip s2
            else
              match s2 with
              | EmptyString => s
              | String c s3 => if is_space3 a b c then lstrip s3 else s
              end
        end
  end.

(** A string that is one whitespace character. *)
Definition is_space_char (s : string) : bool :=
  match s with
  | String a EmptyString => is_space a
  | String a (String b EmptyString) => is_space2 a b
  | String a (String b (String c EmptyString)) => is_space3 a b c
  | _ => false
  end.

Fixpoint rstrip (s : string) : string :=
  match s with
  | EmptyString => EmptyString
  | String a s' =>
      let t := String a (rstrip s') in
      if is_space_char t then EmptyString else t
  end.

Definition strip (s : string) : string := rstrip (lstrip s).

(** [str.contains(pat)] for a pattern without regex metacharacters:
    [pat] occurs somewhere in [s]. *)
Fixpoint str_contains (pat s : string) : bool :=
  prefix pat s ||
  match s with
  | EmptyString => false
  | String _ s' => str_contains pat s'
  end.

(** The frame with every label stripped. *)
Definition strip_labels (df : RawFrame) : RawFrame :=
  {| index := index df;
     columns := map (fun c => {| cname := strip (cname c);
                                 cdtype := cdtype c;
                                 cvalues := cvalues c |}) (columns df) |}.

(** [df.columns = df.columns.str.strip()]: the [.str] accessor exists on an
    index of strings only, and the column index of a frame without columns
    (an empty workbook) is not one. *)
Definition strip_columns (df : RawFrame) : result RawFrame :=
  match columns df with
  | [] => Raise AttributeError
  | _ :: _ => Ok (strip_labels df)
  end.

(** [all(df.columns.str.contains("Unnamed"))] *)
Definition all_unnamed (df : RawFrame) : bool :=
  forallb (str_contains "Unnamed") (labels df).

(** [df.iloc[0]]: row 0, or IndexError on a frame without rows. *)
Definition iloc0 {L} (df : DataFrame L) : result (list cell) :=
  match index df with
  | [] => Raise IndexError
  | _ :: _ => Ok (map (fun c => hd Missing (cvalues c)) (columns df))
  end.

(** The labels of a frame whose header was kept. *)
Definition text_labels (df : RawFrame) : Frame :=
  {| index := index df;
     columns := map (fun c => {| cname := Text (cname c);
                                 cdtype := cdtype c;
                                 cvalues := cvalues c |}) (columns df) |}.

(** [df.columns = df.iloc[0]; df = df[1:].reset_index(drop=True)] *)
Definition promote_row0 (df : RawFrame) : Frame :=
  {| index := seq 0 (length (tl (index df)));
     columns := map (fun c => {| cname := hd Missing (cvalues c);
                                 cdtype := cdtype c;
                                 cvalues := tl (cvalues c) |}) (columns df) |}.

(** Handle Missing Headers (lines 42-44). *)
Definition handle_missing_headers (df : RawFrame) : result Frame :=
  if all_unnamed df then
    match iloc0 df with
    | Raise e => Raise e
    | Ok _ => Ok (promote_row0 df)
    end
  else Ok (text_labels df).

(** Lines 39-44 on the frame the decoder returned. *)
Definition ingest (raw : RawFrame) : result Frame :=
  match strip_columns raw with
  | Raise e => Raise e
  | Ok df => handle_missing_headers df
  end.

(** The name the decoders give a column whose header cell is empty:
    "Unnamed: " and the position of the column. *)
Definition is_digit (a : ascii) : bool :=
  let n := nat_of_ascii a in (48 <=? n) && (n <=? 57).

Fixpoint all_digits (s : string) : bool :=
  match s with
  | EmptyString => true
  | String a s' => is_digit a && all_digits s'
  end.

Definition is_placeholder (s : string) : bool :=
  let position := substring 9 (String.length s - 9) s in
  prefix "Unnamed: " s
  && negb (String.eqb position EmptyString)
  && all_digits position.

(** ** Merge Files (line 47) *)

Definition has_label (l : cell) (cols : list (column cell)) : bool :=
  existsb (fun c => cell_eqb (cname c) l) cols.

Definition find_column (l : cell) (cols : list (column cell)) : option (column cell) :=
  find (fun c => cell_eqb (cname c) l) cols.

(** Common dtype of two blocks that are stacked. *)
Definition join_dtype (a b : dtype) : dtype :=
  match a, b with
  | Numeric, Numeric => Numeric
  | _, _ => Object
  end.

(** A column of the first frame, continued by the column of the second
    frame with its label, or by missing entries. *)
Definition stack_pair (c d : column cell) : column cell :=
  {| cname := cname c;
     cdtype := join_dtype (cdtype c) (cdtype d);
     cvalues := cvalues c ++ cvalues d |}.

Definition stack_left (b : Frame) (c : column cell) : column cell :=
  match find_column (cname c) (columns b) with
  | Some d => stack_pair c d
  | None => {| cname := cname c;
               cdtype := cdtype c;
               cvalues := cvalues c ++ repeat Missing (nrows b) |}
  end.

(** A column only the second frame has, preceded by missing entries. *)
Definition stack_right (a : Frame) (d : column cell) : column cell :=
  {| cname := cname d;
     cdtype := cdtype d;
     cvalues := repeat Missing (nrows a) ++ cvalues d |}.

Definition only_right (a b : Frame) : list (column cell) :=
  filter (fun d => negb (has_label (cname d) (columns a))) (columns b).

(** [pd.concat([a, b], ignore_index=True)]: the rows of [a], then the rows of
    [b]; the columns of [a], then the columns only [b] has; a cell that a
    frame has no column for is missing; the index is renumbered. *)
Definition concat (a b : Frame) : Frame :=
  {| index := seq 0 (nrows a + nrows b);
     columns := map (stack_left b) (columns a)
                ++ map (stack_right a) (only_right a b) |}.

(** [pd.concat([merged_df, df], ignore_index=True) if not merged_df.empty else df] *)
Definition merge_step (merged_df df : Frame) : Frame :=
  if negb (empty merged_df) then concat merged_df df else df.

(** [pd.DataFrame()] *)
Definition empty_frame : Frame := {| index := []; columns := [] |}.

(** The loop of lines 35-47 over frames that are already ingested. *)
Definition merge_files (fs : list Frame) : Frame :=
  fold_left merge_step fs empty_frame.

(** The loop of lines 35-47 from the decoded files on; the first exception
    ends it. *)
Fixpoint load_files (merged_df : Frame) (raws : list RawFrame) : result Frame :=
  match raws with
  | [] => Ok merged_df
  | raw :: raws' =>
      match ingest raw with
      | Raise e => Raise e
      | Ok df => load_files (merge_step merged_df df) raws'
      end
  end.

(** The cell of the column labelled [l] at position [i]. *)
Definition cell_at (df : Frame) (l : cell) (i : nat) : option cell :=
  match find_column l (columns df) with
  | Some c => nth_error (cvalues c) i
  | None => None
  end.

Definition count_missing (df : Frame) : nat :=
  list_sum (map (fun c => length (filter is_missing (cvalues c))) (columns df)).

(** No two columns carry the same label. *)
Fixpoint distinct_labels (cols : list (column cell)) : bool :=
  match cols with
  | [] => true
  | c :: cs => negb (has_label (cname c) cs) && distinct_labels cs
  end.

(** ** Fill Missing Values (lines 59-60) *)

(** The numbers of a column, NaN skipped. *)
Definition present (vs : list cell) : list Q :=
  flat_map (fun v => match v with Num q => [q] | _ => [] end) vs.

Definition Qsum (l : list Q) : Q := fold_right Qplus 0 l.

(** [mean()] of one column: NaN (here [None]) when nothing is present. *)
Definition mean (vs : list cell) : option Q :=
  match present vs with
  | [] => None
  | qs => Some (Qsum qs / inject_Z (Z.of_nat (length qs)))
  end.

(** [fillna(value)] on one column; filling with NaN changes nothing. *)
Definition fillna (m : option Q) (vs : list cell) : list cell :=
  match m with
  | None => vs
  | Some q => map (fun v => if is_missing v then Num q else v) vs
  end.

Definition set_values {L} (c : column L) (vs : list cell) : column L :=
  {| cname := cname c; cdtype := cdtype c; cvalues := vs |}.

Definition fill_missing_values (df : Frame) : Frame :=
  {| index := index df;
     columns := map (fun c => if is_numeric c
                              then set_values c (fillna (mean (cvalues c)) (cvalues c))
                              else c) (columns df) |}.


(** Lines 59-60 with the mean as pandas computes it, on a table whose
    labels are distinct. *)
Section Imputation.

(** [merged_df[numeric_cols].mean()] for one column: the float64 mean of
    the entries present, in pandas' order of summation and with its
    rounding, when it is a finite number; [None] when it is NaN. *)
Variable column_mean : list cell -> option Q.

Definition fill_missing_with (df : Frame) : Frame :=
  {| index := index df;
     columns := map (fun c => if is_numeric c
                              then set_values c (fillna (column_mean (cvalues c))
                                                        (cvalues c))
                              else c) (columns df) |}.

End Imputation.

(** ** Column Selection (line 65): [merged_df[selected_columns]] *)

Definition select_columns (selected : list cell) (df : Frame) : result Frame :=
  if forallb (fun n => has_label n (columns df)) selected
  then Ok {| index := index df;
             columns := flat_map (fun n => filter (fun c => cell_eqb (cname c) n)
                                                  (columns df)) selected |}
  else Raise KeyError.

(** ** Data Scaling (lines 68-75) *)

Inductive scaling_method : Type :=
| NoScaling      (* "None" *)
| MinMax         (* "Normalization (Min-Max)" *)
| ZScore.        (* "Standardization (Z-Score)" *)

Definition Qlt_bool (x y : Q) : bool := negb (Qle_bool y x).

Definition Qmin_list (x : Q) (l : list Q) : Q :=
  fold_left (fun m y => if Qlt_bool y m then y else m) l x.

Definition Qmax_list (x : Q) (l : list Q) : Q :=
  fold_left (fun m y => if Qlt_bool m y then y else m) l x.

(** [nanmin] / [nanmax] of one column. *)
Definition col_min (vs : list cell) : option Q :=
  match present vs with
  | [] => None
  | x :: l => Some (Qmin_list x l)
  end.

Definition col_max (vs : list cell) : option Q :=
  match present vs with
  | [] => None
  | x :: l => Some (Qmax_list x l)
  end.

(** The scalers divide by 1 instead of by a zero scale.  On the exact
    rationals of the frame the test is the test for zero; the test against
    ten machine epsilons is [handle_zeros_f64] below.  The scalers on
    rationals serve the properties of the stage that do not depend on the
    numbers computed (which columns change, shape, exceptions). *)
Definition handle_zeros_in_scale (s : Q) : Q :=
  if Qeq_bool s 0 then 1 else s.

(** [MinMaxScaler()] fitted on, and applied to, one column, feature range
    (0, 1): [scale_ = 1 / range], [min_ = 0 - data_min * scale_],
    [X * scale_ + min_]; NaN stays NaN. *)
Definition minmax_column (vs : list cell) : list cell :=
  match col_min vs, col_max vs with
  | Some data_min, Some data_max =>
      let data_range := data_max - data_min in
      let scale_ := 1 / handle_zeros_in_scale data_range in
      let min_ := 0 - data_min * scale_ in
      map (fun v => match v with
                    | Num x => Num (x * scale_ + min_)
                    | _ => v
                    end) vs
  | _, _ => vs
  end.

(** Population variance (ddof = 0) of the present values. *)
Definition variance (vs : list cell) : option Q :=
  match mean vs with
  | None => None
  | Some m =>
      let qs := present vs in
      Some (Qsum (map (fun x => (x - m) * (x - m)) qs)
            / inject_Z (Z.of_nat (length qs)))
  end.

(** [check_array]: the scalers refuse an array without rows or without
    columns. *)
Definition fit_transform (f : list cell -> list cell) (n_samples : nat)
    (X : list (list cell)) : result (list (list cell)) :=
  match n_samples, X with
  | O, _ => Raise ValueError
  | _, [] => Raise ValueError
  | _, _ => Ok (map f X)
  end.

(** [merged_df[numeric_cols] = X]: the numeric columns take the columns of
    [X], in order. *)
Fixpoint assign_numeric (cols : list (column cell)) (X : list (list cell))
  : list (column cell) :=
  match cols with
  | [] => []
  | c :: cs =>
      if is_numeric c then
        match X with
        | v :: X' => set_values c v :: assign_numeric cs X'
        | [] => c :: assign_numeric cs []
        end
      else c :: assign_numeric cs X
  end.

(** [merged_df[numeric_cols]] as an array. *)
Definition numeric_block (df : Frame) : list (list cell) :=
  map (@cvalues cell) (filter (@is_numeric cell) (columns df)).

Section Scaling.

(** The square root [StandardScaler] takes of the variance. *)
Variable sqrtQ : Q -> Q.

(** [StandardScaler()] fitted on, and applied to, one column. *)
Definition standard_column (vs : list cell) : list cell :=
  match mean vs, variance vs with
  | Some mean_, Some var_ =>
      let scale_ := if Qeq_bool var_ 0 then 1 else sqrtQ var_ in
      map (fun v => match v with
                    | Num x => Num ((x - mean_) / scale_)
                    | _ => v
                    end) vs
  | _, _ => vs
  end.

Definition scaler (m : scaling_method) : list cell -> list cell :=
  match m with
  | NoScaling => fun vs => vs
  | MinMax => minmax_column
  | ZScore => standard_column
  end.

(** Lines 69-75. *)
Definition scale (m : scaling_method) (df : Frame) : result Frame :=
  match m with
  | NoScaling => Ok df
  | _ =>
      match fit_transform (scaler m) (nrows df) (numeric_block df) with
      | Raise e => Raise e
      | Ok X => Ok {| index := index df;
                      columns := assign_numeric (columns df) X |}
      end
  end.

(** The table the script holds after the scaling stage: an exception
    leaves [merged_df] as it was. *)
Definition table_after_scale (m : scaling_method) (df : Frame) : Frame :=
  match scale m df with
  | Ok df' => df'
  | Raise _ => df
  end.

End Scaling.

(** ** The Min-Max scaler on binary64 floats (lines 71-72)

    [MinMaxScaler().fit_transform] on one column, in the arithmetic the
    scaler runs in.  NaN is the missing entry. *)

(** [np.finfo(np.float64).eps] *)
Definition eps64 : float := 0x1p-52%float.

(** The scaler divides by 1 instead of by a range under ten machine
    epsilons. *)
Definition handle_zeros_f64 (scale : float) : float :=
  if (scale <? 10 * eps64)%float then 1%float else scale.

Definition nan_min (m : option float) (x : float) : option float :=
  if PrimFloat.is_nan x then m
  else match m with
       | None => Some x
       | Some y => Some (if (x <? y)%float then x else y)
       end.

Definition nan_max (m : option float) (x : float) : option float :=
  if PrimFloat.is_nan x then m
  else match m with
       | None => Some x
       | Some y => Some (if (y <? x)%float then x else y)
       end.

(** [nanmin] / [nanmax]: NaN is skipped; nothing when every entry is NaN. *)
Definition nanmin_f64 (xs : list float) : option float := fold_left nan_min xs None.

Definition nanmax_f64 (xs : list float) : option float := fold_left nan_max xs None.

(** [scale_ = (1 - 0) / data_range], [min_ = 0 - data_min * scale_],
    [X *= scale_; X += min_]. *)
Definition minmax_value_f64 (data_min data_max x : float) : float :=
  let data_range := (data_max - data_min)%float in
  let scale_ := (1 / handle_zeros_f64 data_range)%float in
  let min_ := (0 - data_min * scale_)%float in
  (x * scale_ + min_)%float.

(** The scaler refuses a column without entries or with an infinite
    entry. *)
Definition minmax_column_f64 (xs : list float) : result (list float) :=
  match xs with
  | [] => Raise ValueError
  | _ :: _ =>
      if existsb PrimFloat.is_infinity xs then Raise ValueError
      else
        match nanmin_f64 xs, nanmax_f64 xs with
        | Some data_min, Some data_max =>
            Ok (map (minmax_value_f64 data_min data_max) xs)
        | _, _ => Ok xs
        end
  end.


(** The order of the floats that are no NaN, as the order of a key:
    negative infinity, the negative numbers, the two zeros, the positive
    numbers, positive infinity. *)
Definition order_key (a : spec_float) : Z * Z * Z :=
  match a with
  | S754_nan => (0, 0, 0)
  | S754_infinity true => (-2, 0, 0)
  | S754_infinity false => (2, 0, 0)
  | S754_zero _ => (0, 0, 0)
  | S754_finite true m e => (-1, - e, Z.neg m)
  | S754_finite false m e => (1, e, Z.pos m)
  end%Z.

Definition lex_lt (a b : Z * Z * Z) : Prop :=
  let '(a1, a2, a3) := a in
  let '(b1, b2, b3) := b in
  (a1 < b1 \/ (a1 = b1 /\ (a2 < b2 \/ (a2 = b2 /\ a3 < b3))))%Z.

Definition lex_le (a b : Z * Z * Z) : Prop := lex_lt a b \/ a = b.

Definition fkey (x : float) : Z * Z * Z := order_key (Prim2SF x).

(** ** Outlier Detection (lines 79-82) *)

Fixpoint insert_sorted (x : Q) (l : list Q) : list Q :=
  match l with
  | [] => [x]
  | y :: l' => if Qle_bool x y then x :: l else y :: insert_sorted x l'
  end.

Definition sort_values (l : list Q) : list Q := fold_right insert_sorted [] l.

Definition Qfloor_nat (h : Q) : nat := Z.to_nat (Qfloor h).

(** [quantile(q)] of one column, linear interpolation, NaN skipped. *)
Definition quantile (q : Q) (vs : list cell) : option Q :=
  match sort_values (present vs) with
  | [] => None
  | x :: l =>
      let xs := x :: l in
      let h := inject_Z (Z.of_nat (length l)) * q in
      let lo := Qfloor_nat h in
      let a := nth lo xs 0 in
      let b := nth (S lo) xs a in
      Some (a + (b - a) * (h - inject_Z (Z.of_nat lo)))
  end.

(** The fences [Q1 - 1.5 * IQR] and [Q3 + 1.5 * IQR] of one column. *)
Definition fences (vs : list cell) : option (Q * Q) :=
  match quantile (1 # 4) vs, quantile (3 # 4) vs with
  | Some Q1, Some Q3 =>
      let IQR := Q3 - Q1 in
      Some (Q1 - (3 # 2) * IQR, Q3 + (3 # 2) * IQR)
  | _, _ => None
  end.

(** One cell of
    [(merged_df[numeric_cols] < lower) | (merged_df[numeric_cols] > upper)];
    a comparison with NaN is False. *)
Definition outside (f : option (Q * Q)) (v : cell) : bool :=
  match f, v with
  | Some (lower, upper), Num x => Qlt_bool x lower || Qlt_bool upper x
  | _, _ => false
  end.

(** The boolean frame of line 82, column by column; it has no column for a
    column that is not numeric, and indexing aligns it with False there. *)
Definition outlier_mask (c : column cell) : list bool :=
  if is_numeric c
  then map (outside (fences (cvalues c))) (cvalues c)
  else map (fun _ => false) (cvalues c).

(** [df[mask]] with a boolean frame is [df.where(mask)]: the shape is kept,
    a cell whose mask is False becomes NaN. *)
Fixpoint where_ (mask : list bool) (vs : list cell) : list cell :=
  match mask, vs with
  | b :: m, v :: vs' => (if b then v else Missing) :: where_ m vs'
  | _, _ => []
  end.

Definition outliers (df : Frame) : Frame :=
  {| index := index df;
     columns := map (fun c => set_values c (where_ (outlier_mask c) (cvalues c)))
                    (columns df) |}.

(** Whether some numeric value of row [i] lies outside its column's
    fences. *)
Definition row_flagged (df : Frame) (i : nat) : bool :=
  existsb (fun c => nth i (outlier_mask c) false) (columns df).

(** The scenario table [{a:[1,2,3,4,100]}]. *)
Definition table_a1234_100 : Frame :=
  {| index := [0; 1; 2; 3; 4]%nat;
     columns := [ {| cname := Text "a"; cdtype := Numeric;
                     cvalues := [Num 1; Num 2; Num 3; Num 4; Num 100] |} ] |}.

(** ** File Conversion (lines 105-130) *)

Inductive conversion_type : Type := CSV | Excel | JSON | Parquet.

Definition bytes := list Byte.byte.

(** What [st.download_button] is handed. *)
Record download : Type := mkDownload {
  data : bytes;
  file_name : string;
  mime : string
}.

(** The files of the working directory and the downloads offered so far. *)
Record world : Type := mkWorld {
  files : list (string * bytes);
  offered : list download
}.

Definition write_file (path : string) (b : bytes) (w : world) : world :=
  {| files := (path, b) :: files w; offered := offered w |}.

Definition read_file (path : string) (w : world) : option bytes :=
  match find (fun f => String.eqb (fst f) path) (files w) with
  | Some f => Some (snd f)
  | None => None
  end.

Definition download_button (d : download) (w : world) : world :=
  {| files := files w; offered := offered w ++ [d] |}.

Section Conversion.

(** The codecs: [to_csv], [to_excel], [to_json(orient='records',
    lines=True)] and [pq.write_table] of [pa.Table.from_pandas]. *)
Variable to_csv to_excel to_parquet : Frame -> result bytes.
Variable to_json : Frame -> result string.

(** The branch of lines 110-127: the buffer, the file name, the MIME type
    when one was assigned, and the world. *)
Definition encode (t : conversion_type) (df : Frame) (w : world)
  : result (bytes * string * option string * world) :=
  let buffer : bytes := [] in
  let file_name := "processed_data"%string in
  match t with
  | CSV =>
      match to_csv df with
      | Raise e => Raise e
      | Ok b => Ok (b, file_name ++ ".csv", Some "text/csv", w)%string
      end
  | Excel =>
      match to_excel df with
      | Raise e => Raise e
      | Ok b =>
          Ok (b, file_name ++ ".xlsx",
              Some "application/vnd.openxmlformats-officedocument.spreadsheetml.sheet",
              w)%string
      end
  | JSON =>
      match to_json df with
      | Raise e => Raise e
      | Ok json_data =>
          Ok (list_byte_of_string json_data, file_name ++ ".json",
              Some "application/json", w)%string
      end
  | Parquet =>
      let parquet_path := "data.parquet"%string in
      match to_parquet df with
      | Raise e => Raise e
      | Ok b =>
          let w1 := write_file parquet_path b w in
          match read_file parquet_path w1 with
          | None => Raise FileNotFoundError
          | Some f =>
              Ok (buffer, file_name, None,
                  download_button
                    {| data := f; file_name := "data.parquet";
                       mime := "application/octet-stream" |} w1)
          end
      end
  end.

(** Lines 106-130: the world the run leaves, and the exception that ended
    it, if any.  Line 130 reads [mime_type], which only the CSV, Excel
    and JSON branches assign. *)
Definition convert_and_download (t : conversion_type) (df : Frame) (w : world)
  : world * option exn :=
  match encode t df w with
  | Raise e => (w, Some e)
  | Ok (buffer, file_name, mime_type, w1) =>
      match mime_type with
      | None => (w1, Some NameError)
      | Some m =>
          (download_button {| data := buffer; file_name := file_name; mime := m |} w1,
           None)
      end
  end.

End Conversion.

(** ** Example files *)

Definition raw_unnamed : RawFrame :=
  {| index := [0; 1; 2]%nat;
     columns := [ {| cname := " Unnamed: 0"%string; cdtype := Object;
                     cvalues := [Text "city"; Text "Oslo"; Text "Rome"] |};
                  {| cname := "Unnamed: 1 "%string; cdtype := Object;
                     cvalues := [Text "size"; Num 3; Missing] |} ] |}.

Definition raw_named : RawFrame :=
  {| index := [0; 1]%nat;
     columns := [ {| cname := " city "%string; cdtype := Object;
                     cvalues := [Text "Oslo"; Text "Rome"] |};
                  {| cname := "Unnamed: 1"%string; cdtype := Numeric;
                     cvalues := [Num 3; Missing] |} ] |}.

Definition table_city_size : Frame :=
  {| index := [0; 1]%nat;
     columns := [ {| cname := Text "city"; cdtype := Object;
                     cvalues := [Text "Oslo"; Text "Rome"] |};
                  {| cname := Text "size"; cdtype := Numeric;
                     cvalues := [Num 3; Missing] |} ] |}.

(** ** The imputation claim, word for word *)



(** ** Frames as ingestion yields them *)

(** The columns are as long as the index, no label occurs twice, and a
    frame without columns has no rows. *)
Definition ingested (df : Frame) : Prop :=
  well_formed df
  /\ distinct_labels (columns df) = true
  /\ (columns df = [] -> index df = []).

(** What the merge loop maintains after the files [done]: the table holds
    their rows, one file after the other. *)
Definition merged_rows (merged_df : Frame) (done : list Frame) : Prop :=
  nrows merged_df = list_sum (map (@nrows cell) done)
  /\ forall pre t post, done = pre ++ t :: post ->
       forall c i v, In c (columns t) -> nth_error (cvalues c) i = Some v ->
         cell_at merged_df (cname c) (list_sum (map (@nrows cell) pre) + i) = Some v.

Definition file1 : Frame :=
  {| index := [0; 1; 2]%nat;
     columns := [ {| cname := Text "city"; cdtype := Object;
                     cvalues := [Text "Oslo"; Text "Rome"; Missing] |};
                  {| cname := Text "size"; cdtype := Numeric;
                     cvalues := [Num 3; Missing; Num 4] |} ] |}.

Definition file2 : Frame :=
  {| index := [0; 1; 2]%nat;
     columns := [ {| cname := Text "city"; cdtype := Object;
                     cvalues := [Text "Bonn"; Text "Oslo"; Text "Kyiv"] |};
                  {| cname := Text "size"; cdtype := Numeric;
                     cvalues := [Num 1; Num 2; Missing] |} ] |}.

(** ** The stages of one run (lines 54-84) *)

(** What the widgets return in one run of the script. *)
Record choices : Type := mkChoices {
  remove_duplicates : bool;             (* the "Remove Duplicates" button *)
  fill_missing : bool;                  (* the "Fill Missing Values" button *)
  selected_columns : list cell;         (* the multiselect *)
  scaling : scaling_method;             (* the selectbox *)
  detect_outliers : bool                (* the checkbox *)
}.

(** Lines 54-84 on the merged table: the table after the scaling stage and
    the frame of line 82 when the checkbox is ticked; the first exception
    ends the run. *)
Definition run_stages (sqrtQ : Q -> Q) (ui : choices) (merged_df : Frame)
  : result (Frame * option Frame) :=
  let df1 := if remove_duplicates ui then drop_duplicates merged_df else merged_df in
  let df2 := if fill_missing ui then fill_missing_values df1 else df1 in
  match select_columns (selected_columns ui) df2 with
  | Raise e => Raise e
  | Ok df3 =>
      match scale sqrtQ (scaling ui) df3 with
      | Raise e => Raise e
      | Ok df4 => Ok (df4, if detect_outliers ui then Some (outliers df4) else None)
      end
  end.

(** A file that is one line of empty header fields. *)
Definition raw_header_only : RawFrame :=
  {| index := [];
     columns := [ {| cname := "Unnamed: 0"%string; cdtype := Object; cvalues := [] |};
                  {| cname := "Unnamed: 1"%string; cdtype := Object; cvalues := [] |} ] |}.

(** Two files whose columns differ. *)
Definition file_ab : Frame :=
  {| index := [0; 1]%nat;
     columns := [ {| cname := Text "a"; cdtype := Numeric; cvalues := [Num 1; Num 2] |};
                  {| cname := Text "b"; cdtype := Object;
                     cvalues := [Text "x"; Text "y"] |} ] |}.

Definition file_bc : Frame :=
  {| index := [0]%nat;
     columns := [ {| cname := Text "b"; cdtype := Object; cvalues := [Text "z"] |};
                  {| cname := Text "c"; cdtype := Numeric; cvalues := [Num 7] |} ] |}.

(** A header without rows, as an ingested frame. *)
Definition file_no_rows : Frame :=
  {| index := [];
     columns := [ {| cname := Text "old"; cdtype := Object; cvalues := [] |} ] |}.

(** No label is selected twice (the multiselect offers each once). *)
Fixpoint distinct_cells (ls : list cell) : bool :=
  match ls with
  | [] => true
  | l :: ls' => negb (existsb (cell_eqb l) ls') && distinct_cells ls'
  end.

(** ** The header claim, word for word *)

(** A file with a header of its own whose names contain "Unnamed". *)
Definition raw_road : RawFrame :=
  {| index := [0; 1]%nat;
     columns := [ {| cname := "My Unnamed road"%string; cdtype := Object;
                     cvalues := [Text "Main"; Text "Elm"] |};
                  {| cname := " Unnamed lane"%string; cdtype := Numeric;
                     cvalues := [Num 3; Num 4] |} ] |}.

(** Row 0 is promoted when every stripped name is a placeholder, and the
    body stays as it was read otherwise. *)
Definition header_claim (raw : RawFrame) : Prop :=
  (forallb is_placeholder (map strip (labels raw)) = true ->
   exists df, ingest raw = Ok df
     /\ labels df = hd [] (rows raw)
     /\ rows df = tl (rows raw)
     /\ index df = seq 0 (nrows raw - 1))
  /\
  (forallb is_placeholder (map strip (labels raw)) = false ->
   exists df, ingest raw = Ok df
     /\ rows df = rows raw
     /\ index df = index raw).

(** * Properties *)

(** ** Lists and masks *)

Lemma drop_where_length {A B} (mask : list bool) (l1 : list A) (l2 : list B) :
  length l1 = length l2 ->
  length (drop_where mask l1) = length (drop_where mask l2).
Proof.
  revert l1 l2.
  induction mask as [|b m IH]; intros [|x l1] [|y l2] H; simpl in *; try discriminate; auto.
  injection H as H. destruct b; simpl; auto.
Qed.

Lemma drop_where_none {A B} (xs : list B) (l : list A) :
  length xs = length l ->
  drop_where (map (fun _ => false) xs) l = l.
Proof.
  revert l.
  induction xs as [|x xs IH]; intros [|y l] H; simpl in *; try discriminate; auto.
  injection H as H. now rewrite IH.
Qed.

Lemma rows_of_length (n : nat) (cols : list (list cell)) :
  length (rows_of n cols) = n.
Proof.
  revert cols. induction n as [|n IH]; intros cols; simpl; auto.
Qed.

Lemma duplicated_from_length (rs seen : list (list cell)) :
  length (duplicated_from seen rs) = length rs.
Proof.
  revert seen. induction rs as [|r rs IH]; intros seen; simpl; auto.
Qed.

(** Dropping rows commutes with reading the columns row by row. *)
Lemma rows_of_drop_where (mask : list bool) :
  forall (n : nat) (idx : list nat) (cols : list (list cell)),
    length mask = n ->
    length idx = n ->
    Forall (fun v => length v = n) cols ->
    rows_of (length (drop_where mask idx)) (map (drop_where mask) cols)
    = drop_where mask (rows_of n cols).
Proof.
  induction mask as [|b m IH]; intros n idx cols Hm Hi Hc; subst n.
  - destruct idx; simpl; reflexivity.
  - destruct idx as [|i idx]; [discriminate|]. injection Hi as Hi.
    assert (Htl : Forall (fun v => length v = length m) (map (@tl cell) cols)).
    { rewrite Forall_map. eapply Forall_impl; [|exact Hc].
      intros [|x v] Hv; simpl in *; [discriminate|congruence]. }
    pose proof (IH (length m) idx (map (@tl cell) cols) eq_refl Hi Htl) as IH'.
    rewrite map_map in IH'.
    change (rows_of (length (b :: m)) cols)
      with (map (hd Missing) cols :: rows_of (length m) (map (@tl cell) cols)).
    destruct b.
    + change (drop_where (true :: m) (i :: idx)) with (drop_where m idx).
      change (drop_where (true :: m)
                (map (hd Missing) cols :: rows_of (length m) (map (@tl cell) cols)))
        with (drop_where m (rows_of (length m) (map (@tl cell) cols))).
      rewrite <- IH'. f_equal. apply map_ext_Forall.
      eapply Forall_impl; [|exact Hc].
      intros [|x v] Hv; simpl in *; [discriminate|reflexivity].
    + change (drop_where (false :: m) (i :: idx)) with (i :: drop_where m idx).
      change (drop_where (false :: m)
                (map (hd Missing) cols :: rows_of (length m) (map (@tl cell) cols)))
        with (map (hd Missing) cols
              :: drop_where m (rows_of (length m) (map (@tl cell) cols))).
      rewrite <- IH'.
      change (length (i :: drop_where m idx)) with (S (length (drop_where m idx))).
      change (rows_of (S (length (drop_where m idx))) (map (drop_where (false :: m)) cols))
        with (map (hd Missing) (map (drop_where (false :: m)) cols)
              :: rows_of (length (drop_where m idx))
                         (map (@tl cell) (map (drop_where (false :: m)) cols))).
      f_equal.
      * rewrite map_map. apply map_ext_Forall.
        eapply Forall_impl; [|exact Hc].
        intros [|x v] Hv; simpl in *; [discriminate|reflexivity].
      * f_equal. rewrite map_map. apply map_ext_Forall.
        eapply Forall_impl; [|exact Hc].
        intros [|x v] Hv; simpl in *; [discriminate|reflexivity].
Qed.

(** A row that survived the first pass is not marked by a second pass. *)
Lemma duplicated_from_again (rs : list (list cell)) :
  forall seen1 seen2 : list (list cell),
    incl seen2 seen1 ->
    duplicated_from seen2 (drop_where (duplicated_from seen1 rs) rs)
    = map (fun _ => false) (drop_where (duplicated_from seen1 rs) rs).
Proof.
  induction rs as [|r rs IH]; intros seen1 seen2 Hincl; simpl; [reflexivity|].
  destruct (existsb (row_eqb r) seen1) eqn:E.
  - apply IH. intros x Hx. apply in_or_app. left. auto.
  - simpl. f_equal.
    + destruct (existsb (row_eqb r) seen2) eqn:E2; [|reflexivity].
      apply existsb_exists in E2. destruct E2 as [x [Hx Hr]].
      assert (existsb (row_eqb r) seen1 = true) by (apply existsb_exists; eauto).
      congruence.
    + apply IH. intros x Hx. apply in_app_or in Hx. apply in_or_app.
      destruct Hx; auto.
Qed.

(** What the mask says about row [i]: an earlier row equals it. *)
Lemma duplicated_from_spec (rs : list (list cell)) :
  forall (seen : list (list cell)) (i : nat) (r : list cell),
    nth_error rs i = Some r ->
    (nth i (duplicated_from seen rs) false = true <->
     existsb (row_eqb r) seen = true \/
     exists j r', (j < i)%nat /\ nth_error rs j = Some r' /\ row_eqb r r' = true).
Proof.
  induction rs as [|a rs IH]; intros seen i r Hi.
  - destruct i; discriminate.
  - destruct i as [|i]; simpl in Hi |- *.
    + injection Hi as ->. split; [auto|].
      intros [H|[j [r' [Hj _]]]]; [exact H|lia].
    + rewrite (IH (seen ++ [a]) i r Hi). rewrite existsb_app. simpl.
      rewrite orb_false_r, orb_true_iff. split.
      * intros [[H|H]|[j [r' [Hj [Hn He]]]]].
        -- left; exact H.
        -- right. exists 0%nat, a. repeat split; [lia|exact H].
        -- right. exists (S j), r'. repeat split; [lia|exact Hn|exact He].
      * intros [H|[[|j] [r' [Hj [Hn He]]]]].
        -- left; left; exact H.
        -- simpl in Hn. injection Hn as <-. left; right; exact He.
        -- simpl in Hn. right. exists j, r'. repeat split; [lia|exact Hn|exact He].
Qed.

Lemma set_same_values {L} (cols : list (column L)) :
  map (fun c => {| cname := cname c; cdtype := cdtype c; cvalues := cvalues c |}) cols
  = cols.
Proof.
  induction cols as [|[n d v] cols IH]; simpl; [reflexivity|now rewrite IH].
Qed.

(** The rows of the deduplicated frame are the unmarked rows, in order. *)
Lemma rows_drop_duplicates {L} (df : DataFrame L) :
  well_formed df ->
  columns df <> [] ->
  rows (drop_duplicates df) = drop_where (duplicated df) (rows df).
Proof.
  intros Hwf Hc. unfold drop_duplicates.
  destruct (empty df) eqn:E.
  - unfold empty in E. unfold duplicated, rows, nrows.
    destruct (index df) as [|i idx]; [reflexivity|].
    destruct (columns df); [congruence|discriminate].
  - unfold rows at 1, nrows. simpl.
    rewrite map_map. simpl.
    rewrite <- map_map with (f := @cvalues L) (g := drop_where (duplicated df)).
    apply rows_of_drop_where.
    + unfold duplicated. rewrite duplicated_from_length. apply rows_of_length.
    + reflexivity.
    + rewrite Forall_map. exact Hwf.
Qed.

Lemma drop_duplicates_well_formed {L} (df : DataFrame L) :
  well_formed df -> well_formed (drop_duplicates df).
Proof.
  intros Hwf. unfold drop_duplicates.
  destruct (empty df); [exact Hwf|].
  unfold well_formed, nrows. simpl. rewrite Forall_map. simpl.
  eapply Forall_impl; [|exact Hwf].
  intros c Hc. apply drop_where_length. exact Hc.
Qed.

(** A mask that marks nothing selects the whole frame. *)
Lemma drop_nothing {L} (d : DataFrame L) :
  well_formed d ->
  {| index := drop_where (map (fun _ => false) (rows d)) (index d);
     columns := map (fun c => {| cname := cname c;
                                 cdtype := cdtype c;
                                 cvalues := drop_where (map (fun _ => false) (rows d))
                                                       (cvalues c) |})
                    (columns d) |} = d.
Proof.
  intros Hwf. destruct d as [idx cols]. unfold well_formed, nrows in Hwf. simpl in *.
  assert (Hlen : length (rows {| index := idx; columns := cols |}) = length idx).
  { unfold rows, nrows. simpl. apply rows_of_length. }
  f_equal.
  - apply drop_where_none. exact Hlen.
  - rewrite <- (set_same_values cols) at 2.
    apply map_ext_Forall. eapply Forall_impl; [|exact Hwf].
    intros c Hc. simpl. f_equal. apply drop_where_none. congruence.
Qed.

Lemma not_empty_columns {L} (df : DataFrame L) :
  empty df = false -> columns df <> [].
Proof.
  unfold empty. destruct (index df); [discriminate|].
  destruct (columns df); [discriminate|congruence].
Qed.

(** ** Remove Duplicates *)

(** C4: removing duplicates a second time changes nothing. *)
Theorem drop_duplicates_idempotent (df : Frame) :
  well_formed df ->
  drop_duplicates (drop_duplicates df) = drop_duplicates df.
Proof.
  intros Hwf.
  destruct (empty df) eqn:E.
  - unfold drop_duplicates. rewrite E. rewrite E. reflexivity.
  - pose proof (rows_drop_duplicates Hwf (not_empty_columns df E)) as Hrows.
    pose proof (drop_duplicates_well_formed Hwf) as Hwf'.
    set (df' := drop_duplicates df) in *.
    unfold drop_duplicates at 1.
    destruct (empty df') eqn:E'; [reflexivity|].
    assert (Hd : duplicated df' = map (fun _ => false) (rows df')).
    { unfold duplicated at 1. rewrite Hrows. unfold duplicated.
      apply duplicated_from_again. apply incl_refl. }
    rewrite Hd. apply drop_nothing. exact Hwf'.
Qed.

Lemma drop_duplicates_idempotent_witness :
  well_formed table_a1223 /\
  drop_duplicates (drop_duplicates table_a1223) = drop_duplicates table_a1223.
Proof.
  assert (H : well_formed table_a1223).
  { unfold well_formed, table_a1223, nrows; simpl. repeat constructor. }
  split; [exact H|apply (drop_duplicates_idempotent H)].
Defined.

(** C5: the rows that are removed are exactly the rows that equal an
    earlier row on every column; the other rows are kept in their order, so
    the first of equal rows stays; labels and dtypes are kept; and
    [{a:[1,2,2,3]}] becomes [{a:[1,2,3]}]. *)
Theorem drop_duplicates_keeps_first (df : Frame) :
  well_formed df ->
  columns df <> [] ->
  rows (drop_duplicates df) = drop_where (duplicated df) (rows df)
  /\ (forall i r, nth_error (rows df) i = Some r ->
        (nth i (duplicated df) false = true <->
         exists j r', (j < i)%nat /\ nth_error (rows df) j = Some r'
                      /\ row_eqb r r' = true))
  /\ labels (drop_duplicates df) = labels df
  /\ map (@cdtype cell) (columns (drop_duplicates df)) = map (@cdtype cell) (columns df)
  /\ map (@cvalues cell) (columns (drop_duplicates table_a1223)) = [[Num 1; Num 2; Num 3]].
Proof.
  intros Hwf Hc. split; [|split; [|split; [|split]]].
  - apply rows_drop_duplicates; assumption.
  - intros i r Hi. unfold duplicated.
    rewrite (duplicated_from_spec (rows df) [] i Hi). simpl.
    split; [intros [H|H]; [discriminate|exact H]|auto].
  - unfold drop_duplicates, labels. destruct (empty df); [reflexivity|].
    simpl. rewrite map_map. reflexivity.
  - unfold drop_duplicates. destruct (empty df); [reflexivity|].
    simpl. rewrite map_map. reflexivity.
  - reflexivity.
Qed.

Lemma drop_duplicates_keeps_first_witness :
  rows (drop_duplicates table_a1223)
  = drop_where (duplicated table_a1223) (rows table_a1223)
  /\ duplicated table_a1223 = [false; false; true; false].
Proof.
  assert (H : well_formed table_a1223).
  { unfold well_formed, table_a1223, nrows; simpl. repeat constructor. }
  assert (Hc : columns table_a1223 <> []) by discriminate.
  split.
  - exact (proj1 (drop_duplicates_keeps_first H Hc)).
  - reflexivity.
Defined.

(** ** Handle Missing Headers *)

Example strip_and_contains :
  strip "  Unnamed: 0 " = "Unnamed: 0"%string
  /\ str_contains "Unnamed" "Unnamed: 0" = true
  /\ str_contains "Unnamed" "My Unnamed road" = true
  /\ str_contains "Unnamed" "unnamed" = false
  /\ str_contains "Unnamed" "city" = false.
Proof. repeat split. Qed.

(** A no-break space (U+00A0, bytes 194 160) and an ideographic space
    (U+3000, bytes 227 128 128) are stripped like a blank. *)
Example strip_unicode_whitespace :
  strip (String (ascii_of_nat 194) (String (ascii_of_nat 160)
           ("a b" ++ String (ascii_of_nat 227) (String (ascii_of_nat 128)
                       (String (ascii_of_nat 128) " ")))))
  = "a b"%string.
Proof. reflexivity. Qed.

Example placeholders :
  is_placeholder "Unnamed: 0" = true
  /\ is_placeholder "Unnamed: 12" = true
  /\ is_placeholder "Unnamed: " = false
  /\ is_placeholder "My Unnamed road" = false
  /\ is_placeholder "Unnamed lane" = false.
Proof. repeat split. Qed.

Lemma all_unnamed_strip_labels (raw : RawFrame) :
  all_unnamed (strip_labels raw)
  = forallb (str_contains "Unnamed") (map strip (labels raw)).
Proof.
  unfold all_unnamed, labels, strip_labels. simpl.
  now rewrite !map_map.
Qed.

Lemma ingest_with_columns (raw : RawFrame) :
  columns raw <> [] ->
  ingest raw = handle_missing_headers (strip_labels raw).
Proof.
  intros Hc. unfold ingest, strip_columns.
  destruct (columns raw); [congruence|reflexivity].
Qed.

Lemma prefix_append (pat b : string) : prefix pat (pat ++ b) = true.
Proof.
  induction pat as [|a pat IH]; simpl; [destruct b; reflexivity|].
  destruct (ascii_dec a a); [exact IH|congruence].
Qed.

Lemma prefix_split (pat : string) :
  forall s, prefix pat s = true -> exists b, s = (pat ++ b)%string.
Proof.
  induction pat as [|a pat IH]; intros s H; simpl in *.
  - exists s. reflexivity.
  - destruct s as [|c s]; simpl in H; [discriminate H|].
    destruct (ascii_dec a c) as [->|]; [|discriminate H].
    destruct (IH s H) as [b ->]. exists b. reflexivity.
Qed.

(** The test of line 42 on one label is substring containment: the label
    need not be a placeholder, it only has to contain the pattern. *)
Lemma str_contains_substring (pat s : string) :
  str_contains pat s = true <-> exists a b, s = (a ++ pat ++ b)%string.
Proof.
  split.
  - induction s as [|c s IH]; cbn [str_contains].
    + rewrite orb_false_r. intros H. destruct (prefix_split _ _ H) as [b Hb].
      exists EmptyString, b. exact Hb.
    + intros H. apply orb_true_iff in H. destruct H as [H|H].
      * destruct (prefix_split _ _ H) as [b Hb].
        exists EmptyString, b. exact Hb.
      * destruct (IH H) as [a [b ->]]. exists (String c a), b. reflexivity.
  - intros [a [b ->]]. induction a as [|c a IH].
    + change (EmptyString ++ pat ++ b)%string with (pat ++ b)%string.
      assert (H := prefix_append pat b).
      destruct (pat ++ b)%string; cbn [str_contains]; rewrite H; reflexivity.
    + change (String c a ++ pat ++ b)%string with (String c (a ++ pat ++ b)).
      cbn [str_contains]. rewrite IH. apply orb_true_r.
Qed.

Lemma all_contain_unnamed (raw : RawFrame) :
  forallb (str_contains "Unnamed") (map strip (labels raw)) = true <->
  forall c, In c (columns raw) ->
    exists a b, strip (cname c) = (a ++ "Unnamed" ++ b)%string.
Proof.
  rewrite forallb_forall. unfold labels. rewrite map_map. split.
  - intros H c Hc. apply str_contains_substring. apply H.
    apply in_map_iff. eauto.
  - intros H l Hl. apply in_map_iff in Hl. destruct Hl as [c [<- Hc]].
    apply str_contains_substring. auto.
Qed.

(** X1: all labels contain "Unnamed" and there is no row 0: the promotion of
    line 43 raises IndexError. *)
Lemma headers_without_rows (raw : RawFrame) :
  columns raw <> [] ->
  forallb (str_contains "Unnamed") (map strip (labels raw)) = true ->
  index raw = [] ->
  ingest raw = Raise IndexError.
Proof.
  intros Hc Hall Hidx. rewrite (ingest_with_columns raw Hc).
  unfold handle_missing_headers.
  rewrite all_unnamed_strip_labels, Hall.
  unfold iloc0. simpl. now rewrite Hidx.
Qed.

(** C6 as stated fails on a file whose own header names contain "Unnamed":
    they are no placeholders, and row 0 is promoted all the same. *)
Lemma header_claim_counterexample : ~ header_claim raw_road.
Proof.
  intros [_ H]. destruct (H eq_refl) as [df [Hdf [Hrows _]]].
  assert (E : ingest raw_road = Ok (promote_row0 (strip_labels raw_road)))
    by reflexivity.
  rewrite E in Hdf. injection Hdf as <-. discriminate Hrows.
Qed.

(** C6, amended: a file without columns raises AttributeError at the
    strip of line 39.  On a file with columns, when every stripped label
    has "Unnamed" somewhere in it, the values of row 0 become the labels,
    the body is the rows after row 0 and the index counts from 0, and
    without a row 0 the promotion raises IndexError; when some stripped
    label has not, the body and the index are the ones that were read and
    the labels are the stripped ones. *)
Theorem headerless_detection (raw : RawFrame) :
  (columns raw = [] -> ingest raw = Raise AttributeError)
  /\
  (columns raw <> [] ->
   (forall c, In c (columns raw) ->
      exists a b, strip (cname c) = (a ++ "Unnamed" ++ b)%string) ->
   match index raw with
   | [] => ingest raw = Raise IndexError
   | _ :: _ =>
       exists df, ingest raw = Ok df
         /\ labels df = hd [] (rows raw)
         /\ rows df = tl (rows raw)
         /\ index df = seq 0 (nrows raw - 1)
         /\ map (@cdtype cell) (columns df) = map (@cdtype string) (columns raw)
   end)
  /\
  ((exists c, In c (columns raw) /\
      forall a b, strip (cname c) <> (a ++ "Unnamed" ++ b)%string) ->
   exists df, ingest raw = Ok df
     /\ labels df = map (fun s => Text (strip s)) (labels raw)
     /\ map (@cvalues cell) (columns df) = map (@cvalues string) (columns raw)
     /\ rows df = rows raw
     /\ index df = index raw
     /\ map (@cdtype cell) (columns df) = map (@cdtype string) (columns raw)).
Proof.
  split; [|split].
  - intros Hc. unfold ingest, strip_columns. now rewrite Hc.
  - intros Hc Hall. apply (proj2 (all_contain_unnamed raw)) in Hall.
    rewrite (ingest_with_columns raw Hc). unfold handle_missing_headers.
    rewrite all_unnamed_strip_labels, Hall.
    unfold iloc0, promote_row0, rows, labels, nrows. simpl.
    destruct (index raw) as [|i idx]; [reflexivity|].
    eexists. split; [reflexivity|]. simpl.
    rewrite length_seq, Nat.sub_0_r, !map_map. simpl.
    repeat split; reflexivity.
  - intros [c [Hc Hno]].
    assert (Hcols : columns raw <> []) by (destruct (columns raw); [contradiction|discriminate]).
    rewrite (ingest_with_columns raw Hcols). unfold handle_missing_headers.
    rewrite all_unnamed_strip_labels.
    destruct (forallb (str_contains "Unnamed") (map strip (labels raw))) eqn:H.
    + destruct (proj1 (all_contain_unnamed raw) H c Hc) as [a [b Hab]].
      destruct (Hno a b Hab).
    + eexists. split; [reflexivity|].
      unfold text_labels, rows, labels, nrows. simpl.
      rewrite !map_map. simpl. repeat split; reflexivity.
Qed.

Lemma headerless_detection_witness :
  (exists df, ingest raw_unnamed = Ok df
     /\ labels df = [Text "city"; Text "size"]
     /\ rows df = [[Text "Oslo"; Num 3]; [Text "Rome"; Missing]]
     /\ index df = [0; 1]%nat)
  /\
  (exists df, ingest raw_named = Ok df
     /\ labels df = [Text "city"; Text "Unnamed: 1"]
     /\ rows df = [[Text "Oslo"; Num 3]; [Text "Rome"; Missing]]
     /\ index df = [0; 1]%nat).
Proof.
  destruct (headerless_detection raw_unnamed) as [_ [Hp _]].
  destruct (headerless_detection raw_named) as [_ [_ Hk]].
  split.
  - destruct Hp as [df [H1 [H2 [H3 [H4 _]]]]]; [discriminate| |].
    + intros c [<-|[<-|[]]].
      * exists EmptyString, ": 0"%string. reflexivity.
      * exists EmptyString, ": 1"%string. reflexivity.
    + exists df. repeat split; assumption.
  - destruct Hk as [df [H1 [H2 [_ [H3 [H4 _]]]]]].
    + exists {| cname := " city "%string; cdtype := Object;
                cvalues := [Text "Oslo"; Text "Rome"] |}.
      split; [left; reflexivity|].
      intros a b H.
      assert (Hc : str_contains "Unnamed" (strip " city ") = true)
        by (apply str_contains_substring; exists a, b; exact H).
      vm_compute in Hc. discriminate Hc.
    + exists df. repeat split; assumption.
Defined.

(** ** Labels *)

Lemma cell_eqb_refl (a : cell) : cell_eqb a a = true.
Proof.
  destruct a; simpl; auto.
  - apply Qeq_bool_iff. reflexivity.
  - apply String.eqb_refl.
Qed.

Lemma cell_eqb_sym (a b : cell) : cell_eqb a b = cell_eqb b a.
Proof.
  destruct a, b; simpl; auto.
  - destruct (Qeq_bool q q0) eqn:E1, (Qeq_bool q0 q) eqn:E2; auto.
    + apply Qeq_bool_iff in E1. symmetry in E1. apply Qeq_bool_iff in E1. congruence.
    + apply Qeq_bool_iff in E2. symmetry in E2. apply Qeq_bool_iff in E2. congruence.
  - apply String.eqb_sym.
Qed.

Lemma cell_eqb_trans (a b c : cell) :
  cell_eqb a b = true -> cell_eqb b c = true -> cell_eqb a c = true.
Proof.
  destruct a, b, c; simpl; try discriminate; auto.
  - rewrite !Qeq_bool_iff. intros H1 H2. now rewrite H1.
  - rewrite !String.eqb_eq. congruence.
Qed.

Lemma has_label_In (l : cell) (cols : list (column cell)) :
  has_label l cols = true <->
  exists c, In c cols /\ cell_eqb (cname c) l = true.
Proof. unfold has_label. apply existsb_exists. Qed.

Lemma has_label_false (l : cell) (cols : list (column cell)) :
  has_label l cols = false ->
  forall c, In c cols -> cell_eqb (cname c) l = false.
Proof.
  intros H c Hc. destruct (cell_eqb (cname c) l) eqn:E; [|reflexivity].
  assert (has_label l cols = true) by (apply has_label_In; eauto). congruence.
Qed.

Lemma has_label_eqb (l l' : cell) (cols : list (column cell)) :
  cell_eqb l l' = true -> has_label l cols = has_label l' cols.
Proof.
  intros H. unfold has_label. induction cols as [|c0 cols IH]; simpl; [reflexivity|]. rewrite IH. f_equal. revert c0.
  intros c. destruct (cell_eqb (cname c) l) eqn:E1, (cell_eqb (cname c) l') eqn:E2; auto.
  - rewrite (cell_eqb_trans _ _ _ E1 H) in E2. discriminate.
  - rewrite cell_eqb_sym in H. rewrite (cell_eqb_trans _ _ _ E2 H) in E1. discriminate.
Qed.

(** With distinct labels a label that occurs selects one column. *)
Lemma filter_label_unique (l : cell) (cols : list (column cell)) :
  distinct_labels cols = true ->
  has_label l cols = true ->
  exists c, filter (fun c => cell_eqb (cname c) l) cols = [c]
            /\ In c cols /\ cell_eqb (cname c) l = true.
Proof.
  induction cols as [|c cs IH]; simpl; [discriminate|].
  intros Hd Hl. apply andb_true_iff in Hd. destruct Hd as [Hc Hd].
  apply negb_true_iff in Hc.
  destruct (cell_eqb (cname c) l) eqn:E.
  - exists c. repeat split; auto.
    f_equal. rewrite (@has_label_eqb _ _ cs E) in Hc.
    clear - Hc. induction cs as [|d cs IH]; simpl in *; [reflexivity|].
    apply orb_false_iff in Hc. destruct Hc as [H1 H2].
    rewrite H1. auto.
  - simpl in Hl. destruct (IH Hd Hl) as [d [Hf [Hin He]]].
    exists d. repeat split; auto.
Qed.

(** ** Column Selection *)

(** C8: when every requested label is a label of the table, the result has
    the requested columns, in the requested order, with the index and the
    values of the table; when some requested label is not, the selection
    raises KeyError. *)
Theorem select_columns_spec (selected : list cell) (df : Frame) :
  distinct_labels (columns df) = true ->
  ((forall n, In n selected ->
      exists c, In c (columns df) /\ cell_eqb (cname c) n = true) ->
   exists out, select_columns selected df = Ok out
     /\ index out = index df
     /\ Forall2 (fun n c => cell_eqb (cname c) n = true /\ In c (columns df))
                selected (columns out))
  /\
  ((exists n, In n selected /\
      forall c, In c (columns df) -> cell_eqb (cname c) n = false) ->
   select_columns selected df = Raise KeyError).
Proof.
  intros Hd. split.
  - intros Hall. unfold select_columns.
    assert (Hf : forallb (fun n => has_label n (columns df)) selected = true).
    { apply forallb_forall. intros n Hn. apply has_label_In. auto. }
    rewrite Hf. eexists. split; [reflexivity|]. split; [reflexivity|]. simpl.
    clear Hf. induction selected as [|n ns IH]; simpl; [constructor|].
    assert (Hn : has_label n (columns df) = true).
    { apply has_label_In. apply Hall. now left. }
    destruct (@filter_label_unique n (columns df) Hd Hn) as [c [Hc [Hin He]]].
    rewrite Hc. simpl. constructor; [auto|].
    apply IH. intros m Hm. apply Hall. now right.
  - intros [n [Hn Hno]]. unfold select_columns.
    destruct (forallb (fun n => has_label n (columns df)) selected) eqn:Hf;
      [|reflexivity].
    rewrite forallb_forall in Hf. specialize (Hf n Hn).
    apply has_label_In in Hf. destruct Hf as [c [Hc He]].
    rewrite (Hno c Hc) in He. discriminate.
Qed.

Lemma select_columns_spec_witness :
  (exists out, select_columns [Text "size"; Text "city"] table_city_size = Ok out
     /\ index out = index table_city_size
     /\ Forall2 (fun n c => cell_eqb (cname c) n = true
                            /\ In c (columns table_city_size))
                [Text "size"; Text "city"] (columns out))
  /\ select_columns [Text "city"; Text "age"] table_city_size = Raise KeyError.
Proof.
  destruct (@select_columns_spec [Text "size"; Text "city"] table_city_size eq_refl)
    as [H _].
  destruct (@select_columns_spec [Text "city"; Text "age"] table_city_size eq_refl)
    as [_ H'].
  split.
  - apply H. intros n [<-|[<-|[]]].
    + eexists. split; [right; left; reflexivity|reflexivity].
    + eexists. split; [left; reflexivity|reflexivity].
  - apply H'. exists (Text "age"). split; [right; left; reflexivity|].
    intros c [<-|[<-|[]]]; reflexivity.
Defined.

(** ** Fill Missing Values *)

Lemma mean_present (vs : list cell) :
  present vs <> [] ->
  mean vs = Some (Qsum (present vs) / inject_Z (Z.of_nat (length (present vs)))).
Proof.
  unfold mean. destruct (present vs); [congruence|reflexivity].
Qed.

Lemma fillna_no_missing (q : Q) (vs : list cell) :
  existsb is_missing (fillna (Some q) vs) = false.
Proof.
  induction vs as [|v vs IH]; simpl; [reflexivity|].
  destruct v; simpl; exact IH.
Qed.




(** With the exact mean for [column_mean] this is [fill_missing_values]. *)
Lemma fill_missing_with_exact_mean (df : Frame) :
  fill_missing_with mean df = fill_missing_values df.
Proof. reflexivity. Qed.

(** ** The scalers on the frame *)

Lemma assign_numeric_map (f : list cell -> list cell) (cols : list (column cell)) :
  assign_numeric cols (map f (map (@cvalues cell) (filter (@is_numeric cell) cols)))
  = map (fun c => if is_numeric c then set_values c (f (cvalues c)) else c) cols.
Proof.
  induction cols as [|c cols IH]; simpl; [reflexivity|].
  destruct (is_numeric c); simpl; now rewrite IH.
Qed.

(** When the scaler runs: some method other than "None" needs a row and a
    numeric column. *)
Lemma scale_runs (sqrtQ : Q -> Q) (m : scaling_method) (df : Frame) :
  m <> NoScaling ->
  nrows df <> 0%nat ->
  numeric_block df <> [] ->
  scale sqrtQ m df
  = Ok {| index := index df;
          columns := map (fun c => if is_numeric c
                                   then set_values c (scaler sqrtQ m (cvalues c))
                                   else c) (columns df) |}.
Proof.
  intros Hm Hn Hb. unfold scale, fit_transform.
  destruct (nrows df) as [|n] eqn:En; [congruence|].
  destruct (numeric_block df) as [|v X] eqn:Ex; [congruence|].
  rewrite <- Ex. unfold numeric_block. rewrite assign_numeric_map.
  destruct m; [congruence|reflexivity|reflexivity].
Qed.

Lemma scale_raises (sqrtQ : Q -> Q) (m : scaling_method) (df : Frame) :
  m <> NoScaling ->
  nrows df = 0%nat \/ numeric_block df = [] ->
  scale sqrtQ m df = Raise ValueError.
Proof.
  intros Hm H. unfold scale, fit_transform.
  destruct m; [congruence| |];
    (destruct H as [-> | ->]; [reflexivity|destruct (nrows df); reflexivity]).
Qed.

(** ** The order of binary64 numbers *)

Lemma SFcompare_key (a b : spec_float) :
  a <> S754_nan -> b <> S754_nan ->
  match SFcompare a b with
  | Some Lt => lex_lt (order_key a) (order_key b)
  | Some Eq => order_key a = order_key b
  | Some Gt => lex_lt (order_key b) (order_key a)
  | None => False
  end.
Proof.
  intros Ha Hb.
  destruct a as [sa|sa| |sa ma ea], b as [sb|sb| |sb mb eb]; try congruence;
    try destruct sa; try destruct sb; simpl; try lia; try reflexivity.
  - destruct (Z.compare_spec ea eb); simpl; try lia.
    change (Pos.compare_cont Eq ma mb) with (Pos.compare ma mb).
    destruct (Pos.compare_spec ma mb); simpl; subst; try lia. reflexivity.
  - destruct (Z.compare_spec ea eb); simpl; try lia.
    change (Pos.compare_cont Eq ma mb) with (Pos.compare ma mb).
    destruct (Pos.compare_spec ma mb); simpl; subst; try lia. reflexivity.
Qed.





Lemma lex_lt_irrefl a b : lex_lt a b -> lex_le b a -> False.
Proof.
  destruct a as [[a1 a2] a3], b as [[b1 b2] b3]. unfold lex_le, lex_lt.
  intros H [H'|H']; [lia|]. injection H' as -> -> ->. lia.
Qed.

Lemma not_nan_spec (x : float) : PrimFloat.is_nan x = false -> Prim2SF x <> S754_nan.
Proof.
  unfold PrimFloat.is_nan. rewrite FloatAxioms.eqb_spec. intros H E. rewrite E in H. discriminate H.
Qed.


Lemma leb_key (x y : float) :
  PrimFloat.is_nan x = false -> PrimFloat.is_nan y = false ->
  ((x <=? y)%float = true <-> lex_le (fkey x) (fkey y)).
Proof.
  intros Hx Hy. rewrite FloatAxioms.leb_spec. unfold SFleb, fkey.
  pose proof (@SFcompare_key _ _ (@not_nan_spec x Hx) (@not_nan_spec y Hy)) as H.
  destruct (SFcompare (Prim2SF x) (Prim2SF y)) as [[| |]|]; try contradiction.
  - split; [right; exact H|reflexivity].
  - split; [now left|reflexivity].
  - split; [discriminate|]. intros Hle. exfalso. exact (@lex_lt_irrefl _ _ H Hle).
Qed.














(** ** Min-Max scaling *)


Example minmax_column_f64_rounds :
  minmax_column_f64 [1; 6]%float = Ok [0; 0x1.0000000000001p+0]%float
  /\ minmax_column_f64 [0; 0x1p-60]%float = Ok [0; 0x1p-60]%float
  /\ minmax_column_f64 [2; nan; 2]%float = Ok [0; nan; 0]%float
  /\ minmax_column_f64 [1; infinity]%float = Raise ValueError
  /\ minmax_column_f64 [] = Raise ValueError.
Proof. repeat split. Qed.



(** ** Scaling leaves the rest of the table alone *)

Lemma scaler_pointwise (sqrtQ : Q -> Q) (m : scaling_method) (vs : list cell) :
  exists f : cell -> cell, scaler sqrtQ m vs = map f vs.
Proof.
  destruct m; simpl.
  - exists (fun v => v). now rewrite map_id.
  - unfold minmax_column.
    destruct (col_min vs); [|exists (fun v => v); now rewrite map_id].
    destruct (col_max vs); [|exists (fun v => v); now rewrite map_id].
    eexists. reflexivity.
  - unfold standard_column.
    destruct (mean vs); [|exists (fun v => v); now rewrite map_id].
    destruct (variance vs); [|exists (fun v => v); now rewrite map_id].
    eexists. reflexivity.
Qed.

(** The two outcomes of a scaler. *)
Lemma scale_outcome (sqrtQ : Q -> Q) (m : scaling_method) (df : Frame) :
  m <> NoScaling ->
  scale sqrtQ m df = Raise ValueError
  \/ scale sqrtQ m df
     = Ok {| index := index df;
             columns := map (fun c => if is_numeric c
                                      then set_values c (scaler sqrtQ m (cvalues c))
                                      else c) (columns df) |}.
Proof.
  intros Hm.
  destruct (Nat.eq_dec (nrows df) 0) as [Hn|Hn].
  - left. apply scale_raises; auto.
  - destruct (numeric_block df) as [|v X] eqn:Hb.
    + left. apply scale_raises; auto.
    + right. apply scale_runs; auto. rewrite Hb. discriminate.
Qed.

(** C9: whichever method is chosen, the scaling stage either runs or raises
    and leaves the table as it was; in both cases the index is the same,
    every column keeps its place, label, dtype and length, a column that is
    not numeric is unchanged, and a numeric column is changed entry by
    entry. *)
Theorem scaling_frame (sqrtQ : Q -> Q) (m : scaling_method) (df : Frame) :
  (scale sqrtQ m df = Ok (table_after_scale sqrtQ m df)
   \/ (scale sqrtQ m df = Raise ValueError /\ table_after_scale sqrtQ m df = df))
  /\ index (table_after_scale sqrtQ m df) = index df
  /\ length (columns (table_after_scale sqrtQ m df)) = length (columns df)
  /\ forall j c, nth_error (columns df) j = Some c ->
       exists c', nth_error (columns (table_after_scale sqrtQ m df)) j = Some c'
         /\ cname c' = cname c
         /\ cdtype c' = cdtype c
         /\ (is_numeric c = false -> c' = c)
         /\ exists f : cell -> cell, cvalues c' = map f (cvalues c).
Proof.
  assert (Hsame : forall j c, nth_error (columns df) j = Some c ->
            exists c', nth_error (columns df) j = Some c'
              /\ cname c' = cname c /\ cdtype c' = cdtype c
              /\ (is_numeric c = false -> c' = c)
              /\ exists f : cell -> cell, cvalues c' = map f (cvalues c)).
  { intros j c Hj. exists c. repeat split; auto.
    exists (fun v => v). now rewrite map_id. }
  assert (Hm : m = NoScaling \/ m <> NoScaling)
    by (destruct m; [now left|right; discriminate|right; discriminate]).
  destruct Hm as [->|Hm].
  - unfold table_after_scale. simpl. repeat split; auto.
  - destruct (scale_outcome sqrtQ df Hm) as [Hr|Hr];
      unfold table_after_scale; rewrite Hr.
    + repeat split; auto.
    + simpl. split; [now left|]. split; [reflexivity|]. split; [apply length_map|].
      intros j c Hj. rewrite nth_error_map, Hj. simpl.
      eexists. split; [reflexivity|].
      destruct (is_numeric c); simpl.
      * repeat split; [discriminate|]. apply scaler_pointwise.
      * repeat split. exists (fun v => v). now rewrite map_id.
Qed.

(** ** Outlier Detection *)

Example quartiles_of_four :
  quantile (1 # 4) [Num 4; Missing; Num 1; Num 3; Num 2] = Some (7 # 4)
  /\ quantile (3 # 4) [Num 4; Missing; Num 1; Num 3; Num 2] = Some (13 # 4)
  /\ quantile (1 # 4) [Missing; Text "a"] = None.
Proof. repeat split. Qed.




Lemma nth_all_false {A} (l : list A) (i : nat) :
  nth i (map (fun _ => false) l) false = false.
Proof.
  revert i. induction l as [|x l IH]; intros [|i]; simpl; auto.
Qed.



(** C1 at [{a:[1,2,3,4,100]}]: the fences are -1 and 7, only the last row
    has a value outside them, and all five rows come back, the first four
    blanked. *)
Theorem outliers_returns_every_row :
  (exists lower upper,
     fences [Num 1; Num 2; Num 3; Num 4; Num 100] = Some (lower, upper)
     /\ lower == -1 /\ upper == 7)
  /\ map (row_flagged table_a1234_100) [0; 1; 2; 3; 4]%nat
     = [false; false; false; false; true]
  /\ outliers table_a1234_100
     = {| index := [0; 1; 2; 3; 4]%nat;
          columns := [ {| cname := Text "a"; cdtype := Numeric;
                          cvalues := [Missing; Missing; Missing; Missing; Num 100] |} ] |}
  /\ forall df : Frame, nrows (outliers df) = nrows df.
Proof.
  split; [|repeat split].
  eexists. eexists. split; [reflexivity|]. split; reflexivity.
Qed.

(** ** File Conversion *)

(** X20: The CSV, Excel and JSON branches: one download with the encoded table,
    the extended file name and the MIME type; no file is written. *)
Lemma convert_in_memory (to_csv to_excel to_parquet : Frame -> result bytes)
    (to_json : Frame -> result string) (df : Frame) (w : world) :
  (forall b, to_csv df = Ok b ->
     convert_and_download to_csv to_excel to_parquet to_json CSV df w
     = ({| files := files w;
           offered := offered w ++ [ {| data := b;
                                        file_name := "processed_data.csv";
                                        mime := "text/csv" |} ] |}, None))
  /\ (forall b, to_excel df = Ok b ->
     convert_and_download to_csv to_excel to_parquet to_json Excel df w
     = ({| files := files w;
           offered := offered w ++ [ {| data := b;
                                        file_name := "processed_data.xlsx";
                                        mime := "application/vnd.openxmlformats-officedocument.spreadsheetml.sheet" |} ] |}, None))
  /\ (forall s, to_json df = Ok s ->
     convert_and_download to_csv to_excel to_parquet to_json JSON df w
     = ({| files := files w;
           offered := offered w ++ [ {| data := list_byte_of_string s;
                                        file_name := "processed_data.json";
                                        mime := "application/json" |} ] |}, None)).
Proof.
  unfold convert_and_download, encode, download_button.
  repeat split; intros b Hb; rewrite Hb; reflexivity.
Qed.

(** C10 on the Parquet branch: when the codec accepts the table, the file
    [data.parquet] is written and its bytes are offered as [data.parquet]
    with [application/octet-stream]; the run then ends in NameError at line
    130, where [mime_type] was never assigned.  When the codec refuses the
    table, its exception ends the run. *)
Theorem parquet_export_raises (to_csv to_excel to_parquet : Frame -> result bytes)
    (to_json : Frame -> result string) (df : Frame) (w : world) :
  match to_parquet df with
  | Ok b =>
      convert_and_download to_csv to_excel to_parquet to_json Parquet df w
      = ({| files := ("data.parquet"%string, b) :: files w;
            offered := offered w ++ [ {| data := b;
                                         file_name := "data.parquet";
                                         mime := "application/octet-stream" |} ] |},
         Some NameError)
  | Raise e =>
      convert_and_download to_csv to_excel to_parquet to_json Parquet df w
      = (w, Some e)
  end.
Proof.
  unfold convert_and_download, encode.
  destruct (to_parquet df) as [b|e]; reflexivity.
Qed.

(** ** Columns found by label *)

Lemma find_column_map (f : column cell -> column cell) (l : cell)
    (cols : list (column cell)) :
  (forall c, cname (f c) = cname c) ->
  find_column l (map f cols) = option_map f (find_column l cols).
Proof.
  intros Hf. unfold find_column.
  induction cols as [|c cols IH]; simpl; [reflexivity|].
  rewrite Hf. destruct (cell_eqb (cname c) l); [reflexivity|exact IH].
Qed.

Lemma find_column_app (l : cell) (xs ys : list (column cell)) :
  find_column l (xs ++ ys)
  = match find_column l xs with
    | Some c => Some c
    | None => find_column l ys
    end.
Proof.
  unfold find_column.
  induction xs as [|c xs IH]; simpl; [reflexivity|].
  destruct (cell_eqb (cname c) l); [reflexivity|exact IH].
Qed.

Lemma find_column_none (l : cell) (cols : list (column cell)) :
  find_column l cols = None <-> has_label l cols = false.
Proof.
  unfold find_column, has_label.
  induction cols as [|c cols IH]; simpl; [tauto|].
  destruct (cell_eqb (cname c) l); simpl; [split; discriminate|exact IH].
Qed.

Lemma find_column_some (l : cell) (cols : list (column cell)) (c : column cell) :
  find_column l cols = Some c -> In c cols /\ cell_eqb (cname c) l = true.
Proof. unfold find_column. apply find_some. Qed.

Lemma find_column_eqb (l l' : cell) (cols : list (column cell)) :
  cell_eqb l l' = true -> find_column l cols = find_column l' cols.
Proof.
  intros H. unfold find_column.
  induction cols as [|c cols IH]; simpl; [reflexivity|].
  rewrite IH. clear IH.
  destruct (cell_eqb (cname c) l) eqn:E1, (cell_eqb (cname c) l') eqn:E2; auto.
  - rewrite (cell_eqb_trans _ _ _ E1 H) in E2. discriminate.
  - rewrite cell_eqb_sym in H. rewrite (cell_eqb_trans _ _ _ E2 H) in E1. discriminate.
Qed.

Lemma find_column_distinct (cols : list (column cell)) (c : column cell) :
  distinct_labels cols = true ->
  In c cols ->
  find_column (cname c) cols = Some c.
Proof.
  unfold find_column.
  induction cols as [|d cols IH]; simpl; [contradiction|].
  intros Hd Hin. apply andb_true_iff in Hd. destruct Hd as [Hd1 Hd2].
  apply negb_true_iff in Hd1.
  destruct Hin as [->|Hin].
  - now rewrite cell_eqb_refl.
  - rewrite cell_eqb_sym, (has_label_false _ _ Hd1 c Hin). auto.
Qed.

Lemma has_label_map (f : column cell -> column cell) (l : cell)
    (cols : list (column cell)) :
  (forall c, cname (f c) = cname c) ->
  has_label l (map f cols) = has_label l cols.
Proof.
  intros Hf. unfold has_label.
  induction cols as [|c cols IH]; simpl; [reflexivity|].
  now rewrite Hf, IH.
Qed.

Lemma has_label_app (l : cell) (xs ys : list (column cell)) :
  has_label l (xs ++ ys) = has_label l xs || has_label l ys.
Proof. unfold has_label. apply existsb_app. Qed.

Lemma has_label_filter (p : column cell -> bool) (l : cell)
    (cols : list (column cell)) :
  has_label l cols = false -> has_label l (filter p cols) = false.
Proof.
  unfold has_label.
  induction cols as [|c cols IH]; simpl; [reflexivity|].
  intros H. apply orb_false_iff in H. destruct H as [H1 H2].
  destruct (p c); simpl; [rewrite H1|]; auto.
Qed.

Lemma distinct_labels_map (f : column cell -> column cell)
    (cols : list (column cell)) :
  (forall c, cname (f c) = cname c) ->
  distinct_labels (map f cols) = distinct_labels cols.
Proof.
  intros Hf. induction cols as [|c cols IH]; simpl; [reflexivity|].
  now rewrite Hf, has_label_map, IH.
Qed.

Lemma distinct_labels_filter (p : column cell -> bool) (cols : list (column cell)) :
  distinct_labels cols = true -> distinct_labels (filter p cols) = true.
Proof.
  induction cols as [|c cols IH]; simpl; [reflexivity|].
  intros H. apply andb_true_iff in H. destruct H as [H1 H2].
  apply negb_true_iff in H1.
  destruct (p c); simpl; [|auto].
  rewrite (has_label_filter p _ _ H1). simpl. auto.
Qed.

Lemma distinct_labels_app (xs ys : list (column cell)) :
  distinct_labels xs = true ->
  distinct_labels ys = true ->
  (forall c, In c xs -> has_label (cname c) ys = false) ->
  distinct_labels (xs ++ ys) = true.
Proof.
  induction xs as [|c xs IH]; simpl; [auto|].
  intros H Hy Hx. apply andb_true_iff in H. destruct H as [H1 H2].
  apply negb_true_iff in H1.
  rewrite has_label_app, H1, (Hx c (or_introl eq_refl)). simpl.
  apply IH; auto.
Qed.

(** ** Stacking two frames *)

Lemma stack_left_name (b : Frame) (c : column cell) :
  cname (stack_left b c) = cname c.
Proof. unfold stack_left. destruct (find_column (cname c) (columns b)); reflexivity. Qed.

Lemma stack_right_name (a : Frame) (d : column cell) :
  cname (stack_right a d) = cname d.
Proof. reflexivity. Qed.

Lemma concat_well_formed (a b : Frame) :
  well_formed a -> well_formed b -> well_formed (concat a b).
Proof.
  unfold well_formed. intros Ha Hb.
  rewrite Forall_forall in Ha, Hb.
  unfold concat, nrows at 1. simpl. rewrite length_seq.
  apply Forall_app. split; rewrite Forall_map, Forall_forall.
  - intros c Hc. unfold stack_left.
    destruct (find_column (cname c) (columns b)) as [d|] eqn:E; simpl;
      rewrite length_app, (Ha c Hc).
    + apply find_column_some in E. now rewrite (Hb d (proj1 E)).
    + now rewrite repeat_length.
  - intros d Hd. unfold only_right in Hd. apply filter_In in Hd.
    simpl. rewrite length_app, repeat_length, (Hb d (proj1 Hd)). reflexivity.
Qed.

Lemma concat_distinct (a b : Frame) :
  distinct_labels (columns a) = true ->
  distinct_labels (columns b) = true ->
  distinct_labels (columns (concat a b)) = true.
Proof.
  intros Ha Hb. unfold concat. simpl. apply distinct_labels_app.
  - rewrite distinct_labels_map; [exact Ha|apply stack_left_name].
  - rewrite distinct_labels_map; [|apply stack_right_name].
    apply distinct_labels_filter. exact Hb.
  - intros c Hc. apply in_map_iff in Hc. destruct Hc as [c0 [<- Hc0]].
    rewrite stack_left_name, has_label_map; [|apply stack_right_name].
    destruct (has_label (cname c0) (only_right a b)) eqn:E; [|reflexivity].
    apply has_label_In in E. destruct E as [d [Hd He]].
    unfold only_right in Hd. apply filter_In in Hd. destruct Hd as [_ Hd].
    apply negb_true_iff in Hd.
    rewrite cell_eqb_sym, (has_label_false _ _ Hd c0 Hc0) in He. discriminate.
Qed.

(** The rows of the first frame are the first rows of the stack. *)
Lemma cell_at_concat_left (a b : Frame) (l : cell) (k : nat) (v : cell) :
  cell_at a l k = Some v -> cell_at (concat a b) l k = Some v.
Proof.
  unfold cell_at. destruct (find_column l (columns a)) as [c|] eqn:E; [|discriminate].
  intros Hk. unfold concat. simpl.
  rewrite find_column_app, find_column_map, E by apply stack_left_name. simpl.
  assert (Hlt : (k < length (cvalues c))%nat) by (apply nth_error_Some; congruence).
  unfold stack_left.
  destruct (find_column (cname c) (columns b)); simpl;
    rewrite nth_error_app1 by exact Hlt; exact Hk.
Qed.

(** The rows of the second frame follow them. *)
Lemma cell_at_concat_right (a b : Frame) (c : column cell) (i : nat) (v : cell) :
  well_formed a ->
  distinct_labels (columns b) = true ->
  In c (columns b) ->
  nth_error (cvalues c) i = Some v ->
  cell_at (concat a b) (cname c) (nrows a + i) = Some v.
Proof.
  intros Ha Hb Hc Hi. unfold well_formed in Ha. rewrite Forall_forall in Ha.
  unfold cell_at, concat. simpl.
  rewrite find_column_app, find_column_map by apply stack_left_name.
  destruct (find_column (cname c) (columns a)) as [c0|] eqn:E; simpl.
  - apply find_column_some in E. destruct E as [Hin He].
    unfold stack_left.
    rewrite (@find_column_eqb _ _ (columns b) He), (find_column_distinct _ _ Hb Hc).
    simpl. rewrite nth_error_app2; rewrite (Ha c0 Hin); [|lia].
    replace (nrows a + i - nrows a)%nat with i by lia. exact Hi.
  - rewrite find_column_map by apply stack_right_name.
    assert (Hf : In c (only_right a b)).
    { unfold only_right. apply filter_In. split; [exact Hc|].
      apply negb_true_iff. now apply find_column_none. }
    unfold only_right in *.
    rewrite (find_column_distinct _ _ (distinct_labels_filter _ _ Hb) Hf).
    simpl. rewrite nth_error_app2; rewrite repeat_length; [|lia].
    replace (nrows a + i - nrows a)%nat with i by lia. exact Hi.
Qed.

(** ** The merge loop *)

Lemma list_sum_zero (l : list nat) (x : nat) :
  list_sum l = 0%nat -> In x l -> x = 0%nat.
Proof.
  induction l as [|y l IH]; simpl; [contradiction|].
  intros H [->|Hx]; [lia|apply IH; [lia|exact Hx]].
Qed.

Lemma empty_no_rows (df : Frame) :
  ingested df -> empty df = true -> nrows df = 0%nat.
Proof.
  intros [_ [_ Hc]]. unfold empty, nrows.
  destruct (index df) as [|i idx]; [reflexivity|].
  destruct (columns df); [|discriminate].
  intros _. now rewrite (Hc eq_refl).
Qed.

Lemma cell_at_own (df : Frame) (c : column cell) (i : nat) (v : cell) :
  distinct_labels (columns df) = true ->
  In c (columns df) ->
  nth_error (cvalues c) i = Some v ->
  cell_at df (cname c) i = Some v.
Proof.
  intros Hd Hc Hi. unfold cell_at. now rewrite (find_column_distinct _ _ Hd Hc).
Qed.

Lemma merge_step_ingested (merged_df df : Frame) :
  ingested merged_df -> ingested df -> ingested (merge_step merged_df df).
Proof.
  intros [Ha1 [Ha2 Ha3]] [Hb1 [Hb2 Hb3]]. unfold merge_step.
  destruct (empty merged_df) eqn:E; simpl; [repeat split; assumption|].
  repeat split.
  - now apply concat_well_formed.
  - now apply concat_distinct.
  - intros H. exfalso. unfold concat in H. simpl in H.
    apply app_eq_nil in H. destruct H as [H _]. apply map_eq_nil in H.
    exact (not_empty_columns _ E H).
Qed.

Lemma merge_step_rows (merged_df df : Frame) (done : list Frame) :
  Forall ingested done ->
  ingested merged_df ->
  ingested df ->
  merged_rows merged_df done ->
  merged_rows (merge_step merged_df df) (done ++ [df]).
Proof.
  intros Hdone Ha Hb [Hn Hcells].
  assert (Hsum : list_sum (map (@nrows cell) (done ++ [df]))
                 = (list_sum (map (@nrows cell) done) + nrows df)%nat).
  { rewrite map_app, list_sum_app. simpl. now rewrite Nat.add_0_r. }
  assert (Hsplit : forall pre t post, done ++ [df] = pre ++ t :: post ->
            (pre = done /\ t = df /\ post = [])
            \/ exists post', post = post' ++ [df] /\ done = pre ++ t :: post').
  { intros pre t post H.
    destruct post as [|p post].
    - left. apply app_inj_tail in H. destruct H as [-> ->]. auto.
    - right. destruct (exists_last (l := p :: post) ltac:(discriminate))
        as [post' [z' Hz]].
      rewrite Hz in H. rewrite app_comm_cons, app_assoc in H.
      apply app_inj_tail in H. destruct H as [-> <-].
      exists post'. auto. }
  unfold merge_step. destruct (empty merged_df) eqn:E; cbn [negb].
  - pose proof (empty_no_rows Ha E) as H0. rewrite H0 in Hn.
    split; [rewrite Hsum; lia|].
    intros pre t post H c i v Hc Hi.
    destruct (Hsplit _ _ _ H) as [[-> [-> _]]|[post' [_ Hd]]].
    + rewrite <- Hn. simpl. apply cell_at_own; [apply Hb|exact Hc|exact Hi].
    + exfalso.
      assert (Ht : In t done) by (rewrite Hd; apply in_elt).
      assert (Hz : nrows t = 0%nat).
      { apply (list_sum_zero (map (@nrows cell) done)); [lia|].
        apply in_map. exact Ht. }
      rewrite Forall_forall in Hdone. destruct (Hdone t Ht) as [Hwf _].
      unfold well_formed in Hwf. rewrite Forall_forall in Hwf.
      specialize (Hwf c Hc). rewrite Hz in Hwf.
      destruct (cvalues c); [destruct i; discriminate|discriminate].
  - split.
    + unfold nrows at 1. simpl. rewrite length_seq, Hsum. lia.
    + intros pre t post H c i v Hc Hi.
      destruct (Hsplit _ _ _ H) as [[-> [-> _]]|[post' [_ Hd]]].
      * rewrite <- Hn. apply cell_at_concat_right; [apply Ha|apply Hb|exact Hc|exact Hi].
      * apply cell_at_concat_left. eapply Hcells; eauto.
Qed.

Lemma merge_loop_rows (fs : list Frame) :
  forall (merged_df : Frame) (done : list Frame),
    Forall ingested done ->
    Forall ingested fs ->
    ingested merged_df ->
    merged_rows merged_df done ->
    ingested (fold_left merge_step fs merged_df)
    /\ merged_rows (fold_left merge_step fs merged_df) (done ++ fs).
Proof.
  induction fs as [|df fs IH]; intros merged_df done Hdone Hfs Ha Hinv; simpl.
  - rewrite app_nil_r. auto.
  - inversion Hfs as [|? ? Hdf Hfs']; subst.
    replace (done ++ df :: fs) with ((done ++ [df]) ++ fs)
      by (rewrite <- app_assoc; reflexivity).
    apply IH.
    + apply Forall_app. auto.
    + exact Hfs'.
    + now apply merge_step_ingested.
    + now apply merge_step_rows.
Qed.

(** ** Two files with the same columns *)

Lemma find_column_same_position (ds : list (column cell)) :
  forall (cs : list (column cell)) (j : nat) (c d : column cell),
    map (@cname cell) cs = map (@cname cell) ds ->
    distinct_labels ds = true ->
    nth_error cs j = Some c ->
    nth_error ds j = Some d ->
    find_column (cname c) ds = Some d.
Proof.
  intros cs j c d Hl Hd Hc Hj.
  assert (Hn : cname c = cname d).
  { assert (H : nth_error (map (@cname cell) cs) j = Some (cname c))
      by (rewrite nth_error_map, Hc; reflexivity).
    rewrite Hl, nth_error_map, Hj in H. simpl in H. congruence. }
  rewrite Hn. apply find_column_distinct; [exact Hd|].
  eapply nth_error_In; eauto.
Qed.

Lemma stack_left_same (b : Frame) :
  forall cs ds : list (column cell),
    length cs = length ds ->
    (forall j c d, nth_error cs j = Some c -> nth_error ds j = Some d ->
       find_column (cname c) (columns b) = Some d) ->
    map (stack_left b) cs
    = map (fun p => stack_pair (fst p) (snd p)) (combine cs ds).
Proof.
  induction cs as [|c cs IH]; intros [|d ds] Hlen Hfind; simpl in *;
    try discriminate; [reflexivity|].
  f_equal.
  - unfold stack_left. now rewrite (Hfind 0%nat c d eq_refl eq_refl).
  - apply IH; [now injection Hlen|].
    intros j c' d' Hc Hd. exact (Hfind (S j) c' d' Hc Hd).
Qed.

Lemma only_right_same (a b : Frame) :
  labels a = labels b -> only_right a b = [].
Proof.
  intros Hl. unfold only_right.
  assert (H : forall d, In d (columns b) ->
            negb (has_label (cname d) (columns a)) = false).
  { intros d Hd. apply negb_false_iff. apply has_label_In.
    assert (Hn : In (cname d) (labels a)).
    { rewrite Hl. unfold labels. now apply in_map. }
    unfold labels in Hn. apply in_map_iff in Hn. destruct Hn as [c [Hc Hin]].
    exists c. split; [exact Hin|]. rewrite Hc. apply cell_eqb_refl. }
  induction (columns b) as [|d ds IH]; simpl; [reflexivity|].
  rewrite (H d (or_introl eq_refl)). apply IH.
  intros d' Hd'. apply H. now right.
Qed.

Lemma concat_same_labels (a b : Frame) :
  labels a = labels b ->
  distinct_labels (columns b) = true ->
  columns (concat a b)
  = map (fun p => stack_pair (fst p) (snd p)) (combine (columns a) (columns b)).
Proof.
  intros Hl Hd. unfold concat. simpl.
  rewrite (only_right_same a b Hl). simpl. rewrite app_nil_r.
  apply stack_left_same.
  - unfold labels in Hl. rewrite <- (length_map (@cname cell) (columns a)), Hl.
    apply length_map.
  - intros j c d Hc Hj. eapply find_column_same_position; eauto.
Qed.

Lemma map_combine_fst {A B C} (f : A -> C) :
  forall (xs : list A) (ys : list B),
    length xs = length ys ->
    map (fun p => f (fst p)) (combine xs ys) = map f xs.
Proof.
  induction xs as [|x xs IH]; intros [|y ys] H; simpl in *; try discriminate;
    [reflexivity|].
  f_equal. apply IH. now injection H.
Qed.

Lemma map_combine_snd {A B C} (f : B -> C) :
  forall (xs : list A) (ys : list B),
    length xs = length ys ->
    map (fun p => f (snd p)) (combine xs ys) = map f ys.
Proof.
  induction xs as [|x xs IH]; intros [|y ys] H; simpl in *; try discriminate;
    [reflexivity|].
  f_equal. apply IH. now injection H.
Qed.

(** Reading glued columns row by row gives the rows of the upper part, then
    the rows of the lower part. *)
Lemma rows_of_glued (na nb : nat) :
  forall ps : list (list cell * list cell),
    Forall (fun p => length (fst p) = na) ps ->
    rows_of (na + nb) (map (fun p => fst p ++ snd p) ps)
    = rows_of na (map fst ps) ++ rows_of nb (map snd ps).
Proof.
  induction na as [|na IH]; intros ps Hps.
  - simpl. f_equal. apply map_ext_Forall.
    eapply Forall_impl; [|exact Hps].
    intros [u w] Hu. simpl in *. destruct u; [reflexivity|discriminate].
  - simpl.
    assert (Htl : Forall (fun p : list cell * list cell => length (fst p) = na)
                         (map (fun p => (tl (fst p), snd p)) ps)).
    { rewrite Forall_map. eapply Forall_impl; [|exact Hps].
      intros [u w] Hu. simpl in *. destruct u; [discriminate|]. simpl in *. congruence. }
    specialize (IH _ Htl). rewrite !map_map in IH. simpl in IH.
    rewrite !map_map. f_equal.
    + apply map_ext_Forall. eapply Forall_impl; [|exact Hps].
      intros [u w] Hu. simpl in *. destruct u; [discriminate|reflexivity].
    + etransitivity; [|exact IH]. f_equal. apply map_ext_Forall.
      eapply Forall_impl; [|exact Hps].
      intros [u w] Hu. simpl in *. destruct u; [discriminate|reflexivity].
Qed.

Lemma concat_same_rows (a b : Frame) :
  well_formed a ->
  labels a = labels b ->
  distinct_labels (columns b) = true ->
  rows (concat a b) = rows a ++ rows b.
Proof.
  intros Ha Hl Hd.
  assert (Hlen : length (columns a) = length (columns b)).
  { unfold labels in Hl. rewrite <- (length_map (@cname cell) (columns a)), Hl.
    apply length_map. }
  unfold rows. rewrite (concat_same_labels a b Hl Hd).
  unfold nrows at 1. simpl. rewrite length_seq.
  set (ps := map (fun p : column cell * column cell => (cvalues (fst p), cvalues (snd p)))
                 (combine (columns a) (columns b))).
  assert (E : map (@cvalues cell)
                  (map (fun p => stack_pair (fst p) (snd p))
                       (combine (columns a) (columns b)))
              = map (fun p => fst p ++ snd p) ps).
  { unfold ps. rewrite !map_map. reflexivity. }
  rewrite E. unfold nrows. rewrite rows_of_glued.
  - unfold ps. rewrite !map_map. simpl.
    rewrite (map_combine_fst (@cvalues cell) _ _ Hlen).
    rewrite (map_combine_snd (@cvalues cell) _ _ Hlen). reflexivity.
  - unfold ps. rewrite Forall_map. simpl. apply Forall_forall.
    intros [c d] Hin. simpl. apply in_combine_l in Hin.
    unfold well_formed in Ha. rewrite Forall_forall in Ha. exact (Ha c Hin).
Qed.

Lemma count_glued :
  forall cs ds : list (column cell),
    length cs = length ds ->
    list_sum (map (fun c => length (filter is_missing (cvalues c)))
                  (map (fun p => stack_pair (fst p) (snd p)) (combine cs ds)))
    = (list_sum (map (fun c => length (filter is_missing (cvalues c))) cs)
       + list_sum (map (fun c => length (filter is_missing (cvalues c))) ds))%nat.
Proof.
  induction cs as [|c cs IH]; intros [|d ds] H; simpl in *; try discriminate;
    [reflexivity|].
  rewrite (IH ds) by (now injection H).
  rewrite filter_app, length_app. lia.
Qed.

Lemma concat_same_missing (a b : Frame) :
  labels a = labels b ->
  distinct_labels (columns b) = true ->
  count_missing (concat a b) = (count_missing a + count_missing b)%nat.
Proof.
  intros Hl Hd. unfold count_missing.
  rewrite (concat_same_labels a b Hl Hd). apply count_glued.
  unfold labels in Hl. rewrite <- (length_map (@cname cell) (columns a)), Hl.
  apply length_map.
Qed.

Lemma no_rows_nothing (a : Frame) :
  well_formed a -> nrows a = 0%nat -> rows a = [] /\ count_missing a = 0%nat.
Proof.
  intros Ha Hn. unfold rows, count_missing. rewrite Hn. split; [reflexivity|].
  unfold well_formed in Ha. rewrite Hn in Ha.
  induction Ha as [|c cs Hc _ IH]; simpl; [reflexivity|].
  rewrite IH. destruct (cvalues c); [reflexivity|discriminate].
Qed.

(** ** Merge Files *)

(** C7: the merged table has as many rows as the files together, and the
    row [i] of a file stands, cell by cell, at position [i] after the rows
    of the files uploaded before it; for two files with the same labels
    the rows are the rows of the first followed by the rows of the second,
    the labels are theirs, no missing entry is added, and two 3-row files
    give 6 rows. *)
Theorem merge_files_concatenates (fs : list Frame) :
  Forall ingested fs ->
  nrows (merge_files fs) = list_sum (map (@nrows cell) fs)
  /\ (forall pre t post, fs = pre ++ t :: post ->
        forall c i v, In c (columns t) -> nth_error (cvalues c) i = Some v ->
          cell_at (merge_files fs) (cname c) (list_sum (map (@nrows cell) pre) + i)
          = Some v)
  /\ (forall a b, fs = [a; b] -> labels a = labels b ->
        rows (merge_files fs) = rows a ++ rows b
        /\ labels (merge_files fs) = labels a
        /\ count_missing (merge_files fs) = (count_missing a + count_missing b)%nat
        /\ (nrows a = 3%nat -> nrows b = 3%nat -> nrows (merge_files fs) = 6%nat)).
Proof.
  intros Hfs.
  assert (H0 : ingested empty_frame).
  { repeat split; auto. constructor. }
  assert (Hinv : merged_rows empty_frame []).
  { split; [reflexivity|]. intros pre t post H. destruct pre; discriminate. }
  destruct (@merge_loop_rows fs empty_frame [] (Forall_nil _) Hfs H0 Hinv)
    as [_ [Hn Hcells]].
  simpl in Hn, Hcells. fold (merge_files fs) in Hn, Hcells.
  split; [exact Hn|]. split; [exact Hcells|].
  intros a b -> Hl.
  inversion Hfs as [|? ? [Ha [Hda Hea]] Hfs']; subst.
  inversion Hfs' as [|? ? [Hb [Hdb Heb]] _]; subst.
  assert (Hrows : nrows (merge_files [a; b]) = (nrows a + nrows b)%nat).
  { rewrite Hn. simpl. now rewrite Nat.add_0_r. }
  assert (Hm : merge_files [a; b] = if negb (empty a) then concat a b else b)
    by reflexivity.
  rewrite Hm in Hrows |- *. clear Hm Hn Hcells.
  destruct (empty a) eqn:E; cbn [negb] in *.
  - assert (Hz : nrows a = 0%nat) by (apply empty_no_rows; [repeat split|]; assumption).
    destruct (no_rows_nothing Ha Hz) as [Hr Hm].
    rewrite Hr, Hm. simpl. repeat split; auto.
    intros H3. rewrite Hz in H3. discriminate.
  - repeat split.
    + now apply concat_same_rows.
    + unfold labels. rewrite (concat_same_labels a b Hl Hdb), map_map. simpl.
      apply (map_combine_fst (@cname cell)).
      unfold labels in Hl. rewrite <- (length_map (@cname cell) (columns a)), Hl.
      apply length_map.
    + now apply concat_same_missing.
    + intros H3 H3'. rewrite Hrows, H3, H3'. reflexivity.
Qed.

Lemma merge_files_concatenates_witness :
  nrows (merge_files [file1; file2]) = 6%nat
  /\ rows (merge_files [file1; file2]) = rows file1 ++ rows file2
  /\ count_missing (merge_files [file1; file2]) = 3%nat
  /\ cell_at (merge_files [file1; file2]) (Text "city") (3 + 2) = Some (Text "Kyiv").
Proof.
  assert (H : Forall ingested [file1; file2]).
  { repeat constructor; intros Hc; discriminate Hc. }
  destruct (merge_files_concatenates H) as [_ [Hcells Hsame]].
  destruct (Hsame file1 file2 eq_refl eq_refl) as [Hr [_ [Hm H6]]].
  split; [apply H6; reflexivity|].
  split; [exact Hr|].
  split; [exact Hm|].
  apply (Hcells [file1] file2 [] eq_refl
           {| cname := Text "city"; cdtype := Object;
              cvalues := [Text "Bonn"; Text "Oslo"; Text "Kyiv"] |} 2%nat (Text "Kyiv")).
  - left. reflexivity.
  - reflexivity.
Defined.

(** The loop of lines 35-47 from the decoded files, unrolled. *)
Lemma load_files_merges (raws : list RawFrame) :
  forall (dfs : list Frame) (merged_df : Frame),
    Forall2 (fun raw df => ingest raw = Ok df) raws dfs ->
    load_files merged_df raws = Ok (fold_left merge_step dfs merged_df).
Proof.
  induction raws as [|raw raws IH]; intros dfs merged_df H;
    inversion H as [|? df ? dfs' Hraw Hrest]; subst; simpl; [reflexivity|].
  rewrite Hraw. apply IH. exact Hrest.
Qed.

(** * Further properties of the pipeline *)

(** ** Ingestion *)

Lemma headers_without_rows_witness :
  ingest raw_header_only = Raise IndexError.
Proof.
  apply (@headers_without_rows raw_header_only); [discriminate|reflexivity|reflexivity].
Defined.

(** X2: Ingestion keeps the columns as long as the index. *)
Lemma ingest_well_formed (raw : RawFrame) (df : Frame) :
  well_formed raw -> ingest raw = Ok df -> well_formed df.
Proof.
  intros Hwf. unfold ingest, strip_columns.
  destruct (columns raw) as [|c0 cols] eqn:Ec; [intros H; discriminate H|].
  unfold handle_missing_headers.
  assert (Hwf' : well_formed (strip_labels raw)).
  { unfold well_formed, strip_labels, nrows in *. simpl.
    rewrite Forall_map. exact Hwf. }
  destruct (all_unnamed (strip_labels raw)).
  - unfold iloc0. destruct (index (strip_labels raw)) as [|i idx] eqn:E;
      [intros H; discriminate H|].
    intros H. injection H as <-.
    unfold well_formed, promote_row0, nrows in *. simpl. rewrite E in *. simpl in *.
    rewrite length_seq, Forall_map. simpl.
    eapply Forall_impl; [|exact Hwf'].
    intros c Hc. simpl in Hc. rewrite E.
    destruct (cvalues c); simpl in *; [discriminate Hc|congruence].
  - intros H. injection H as <-.
    unfold well_formed, text_labels, nrows in *. simpl.
    rewrite Forall_map. exact Hwf'.
Qed.

Lemma ingest_well_formed_witness :
  well_formed (promote_row0 (strip_labels raw_unnamed)).
Proof.
  apply (@ingest_well_formed raw_unnamed (promote_row0 (strip_labels raw_unnamed))).
  - unfold well_formed, raw_unnamed, nrows; simpl. repeat constructor.
  - reflexivity.
Defined.

(** ** The upload loop *)

(** X4: When every uploaded file is ingested without an exception into a
    frame with columns as long as its index and distinct labels, the upload
    loop returns a table of the same kind that holds the rows of the files
    one after the other: it has as many rows as the files together, and
    the cell of row [i] of a file under one of its labels stands at
    position [i] after the rows of the files uploaded before it. *)
Lemma load_files_rows (raws : list RawFrame) (dfs : list Frame) :
  Forall2 (fun raw df => ingest raw = Ok df) raws dfs ->
  Forall ingested dfs ->
  exists merged_df,
    load_files empty_frame raws = Ok merged_df
    /\ ingested merged_df
    /\ nrows merged_df = list_sum (map (@nrows cell) dfs)
    /\ forall pre t post, dfs = pre ++ t :: post ->
         forall c i v, In c (columns t) -> nth_error (cvalues c) i = Some v ->
           cell_at merged_df (cname c) (list_sum (map (@nrows cell) pre) + i)
           = Some v.
Proof.
  intros Hraws Hdfs.
  exists (fold_left merge_step dfs empty_frame).
  split; [now apply load_files_merges|].
  assert (H0 : ingested empty_frame).
  { repeat split; auto. constructor. }
  assert (Hinv : merged_rows empty_frame []).
  { split; [reflexivity|]. intros pre t post H. destruct pre; discriminate. }
  destruct (@merge_loop_rows dfs empty_frame [] (Forall_nil _) Hdfs H0 Hinv)
    as [Hi [Hn Hcells]].
  simpl in Hn, Hcells. auto.
Qed.

Lemma load_files_rows_witness :
  exists merged_df,
    load_files empty_frame [raw_unnamed; raw_named] = Ok merged_df
    /\ nrows merged_df = 4%nat.
Proof.
  destruct (@load_files_rows [raw_unnamed; raw_named]
              [promote_row0 (strip_labels raw_unnamed); text_labels (strip_labels raw_named)])
    as [merged_df [H1 [_ [H2 _]]]].
  - repeat constructor.
  - repeat constructor; intros Hc; discriminate Hc.
  - exists merged_df. split; [exact H1|exact H2].
Defined.

(** X5: A file that cannot be ingested ends the loop, whatever was merged
    before it and whatever follows. *)
Lemma load_files_aborts (pre post : list RawFrame) (raw : RawFrame) (e : exn) :
  forall (dfs : list Frame) (merged_df : Frame),
    Forall2 (fun r df => ingest r = Ok df) pre dfs ->
    ingest raw = Raise e ->
    load_files merged_df (pre ++ raw :: post) = Raise e.
Proof.
  induction pre as [|r pre IH]; intros dfs merged_df H He;
    inversion H as [|? df ? dfs' Hr Hrest]; subst; simpl.
  - now rewrite He.
  - rewrite Hr. eapply IH; eauto.
Qed.

Lemma load_files_aborts_witness :
  load_files empty_frame ([raw_named] ++ raw_header_only :: [raw_unnamed])
  = Raise IndexError.
Proof.
  eapply (@load_files_aborts [raw_named] [raw_unnamed] raw_header_only IndexError).
  - constructor; [reflexivity|constructor].
  - reflexivity.
Defined.

(** ** More on the merge *)

(** X6: The merged table is again a frame with columns as long as its index
    and distinct labels. *)
Lemma merge_files_ingested (fs : list Frame) :
  Forall ingested fs -> ingested (merge_files fs).
Proof.
  intros Hfs.
  assert (H0 : ingested empty_frame).
  { repeat split; auto. constructor. }
  assert (Hinv : merged_rows empty_frame []).
  { split; [reflexivity|]. intros pre t post H. destruct pre; discriminate. }
  exact (proj1 (@merge_loop_rows fs empty_frame [] (Forall_nil _) Hfs H0 Hinv)).
Qed.

Lemma ingested_examples : Forall ingested [file_ab; file_bc].
Proof. repeat constructor; intros Hc; discriminate Hc. Qed.

Lemma merge_files_ingested_witness : ingested (merge_files [file_ab; file_bc]).
Proof. exact (merge_files_ingested ingested_examples). Defined.

(** X7: Stacking frames whose columns differ fills the gaps with missing
    entries: under a label only the first frame has, the rows of the second
    are missing; under a label only the second has, the rows of the first
    are. *)
Lemma concat_fills_missing (a b : Frame) :
  well_formed a ->
  distinct_labels (columns a) = true ->
  distinct_labels (columns b) = true ->
  (forall c i, In c (columns a) -> has_label (cname c) (columns b) = false ->
     (i < nrows b)%nat ->
     cell_at (concat a b) (cname c) (nrows a + i) = Some Missing)
  /\
  (forall d i, In d (columns b) -> has_label (cname d) (columns a) = false ->
     (i < nrows a)%nat ->
     cell_at (concat a b) (cname d) i = Some Missing).
Proof.
  intros Ha Hda Hdb. unfold well_formed in Ha. rewrite Forall_forall in Ha.
  split.
  - intros c i Hc Hno Hi. unfold cell_at, concat. simpl.
    rewrite find_column_app, find_column_map by apply stack_left_name.
    rewrite (find_column_distinct _ _ Hda Hc). simpl.
    unfold stack_left. apply find_column_none in Hno. rewrite Hno. simpl.
    rewrite nth_error_app2; rewrite (Ha c Hc); [|lia].
    replace (nrows a + i - nrows a)%nat with i by lia.
    now apply nth_error_repeat.
  - intros d i Hd Hno Hi. unfold cell_at, concat. simpl.
    rewrite find_column_app, find_column_map by apply stack_left_name.
    assert (Hnone := Hno). apply find_column_none in Hnone. rewrite Hnone. simpl.
    rewrite find_column_map by apply stack_right_name.
    assert (Hf : In d (only_right a b)).
    { unfold only_right. apply filter_In. split; [exact Hd|].
      now apply negb_true_iff. }
    unfold only_right in *.
    rewrite (find_column_distinct _ _ (distinct_labels_filter _ _ Hdb) Hf).
    simpl. rewrite nth_error_app1 by (now rewrite repeat_length).
    now apply nth_error_repeat.
Qed.

Lemma concat_fills_missing_witness :
  cell_at (concat file_ab file_bc) (Text "a") (2 + 0) = Some Missing
  /\ cell_at (concat file_ab file_bc) (Text "c") 1 = Some Missing.
Proof.
  assert (Hwf : well_formed file_ab).
  { unfold well_formed, file_ab, nrows; simpl. repeat constructor. }
  destruct (@concat_fills_missing file_ab file_bc Hwf eq_refl eq_refl) as [H1 H2].
  split.
  - apply (H1 {| cname := Text "a"; cdtype := Numeric; cvalues := [Num 1; Num 2] |} 0%nat);
      [left; reflexivity|reflexivity|unfold nrows; simpl; lia].
  - apply (H2 {| cname := Text "c"; cdtype := Numeric; cvalues := [Num 7] |} 1%nat);
      [right; left; reflexivity|reflexivity|unfold nrows; simpl; lia].
Defined.

(** X8: A table without rows is not stacked but replaced: the labels of a
    first file that has a header and no rows are gone once a second file
    is merged. *)
Lemma merge_files_drops_empty (a b : Frame) (fs : list Frame) :
  empty a = true ->
  merge_files (a :: b :: fs) = merge_files (b :: fs).
Proof.
  intros E. unfold merge_files. simpl.
  unfold merge_step at 2 3. simpl.
  unfold merge_step at 2. now rewrite E.
Qed.

Lemma merge_files_drops_empty_witness :
  merge_files [file_no_rows; file_bc] = file_bc.
Proof.
  exact (@merge_files_drops_empty file_no_rows file_bc [] eq_refl).
Defined.

(** ** More on duplicate removal *)

Lemma row_eqb_refl (r : list cell) : row_eqb r r = true.
Proof.
  induction r as [|a r IH]; simpl; [reflexivity|].
  now rewrite cell_eqb_refl, IH.
Qed.

Lemma row_eqb_trans (r : list cell) :
  forall s t, row_eqb r s = true -> row_eqb s t = true -> row_eqb r t = true.
Proof.
  induction r as [|a r IH]; intros [|b s] [|c t] H1 H2; simpl in *;
    try discriminate; auto.
  apply andb_true_iff in H1. apply andb_true_iff in H2.
  destruct H1 as [H1 H1'], H2 as [H2 H2'].
  rewrite (cell_eqb_trans _ _ _ H1 H2). simpl. eauto.
Qed.

Lemma drop_where_In {A} (mask : list bool) (l : list A) (x : A) :
  In x (drop_where mask l) -> In x l.
Proof.
  revert l. induction mask as [|b m IH]; intros [|y l] H; simpl in *;
    try contradiction.
  destruct b; simpl in H; [right; auto|].
  destruct H as [->|H]; [now left|right; auto].
Qed.

(** X9: After the removal no two rows of the table are equal. *)
Lemma drop_duplicates_distinct (df : Frame) :
  well_formed df ->
  columns df <> [] ->
  forall i j r r',
    (i < j)%nat ->
    nth_error (rows (drop_duplicates df)) i = Some r ->
    nth_error (rows (drop_duplicates df)) j = Some r' ->
    row_eqb r' r = false.
Proof.
  intros Hwf Hc i j r r' Hij Hi Hj.
  rewrite (rows_drop_duplicates Hwf Hc) in Hi, Hj. unfold duplicated in Hi, Hj.
  set (kept := drop_where (duplicated_from [] (rows df)) (rows df)) in *.
  assert (Hagain : duplicated_from [] kept = map (fun _ => false) kept)
    by (apply duplicated_from_again, incl_refl).
  destruct (row_eqb r' r) eqn:E; [|reflexivity].
  assert (Hmark : nth j (duplicated_from [] kept) false = true).
  { apply (duplicated_from_spec kept [] j Hj). right. exists i, r. auto. }
  rewrite Hagain, nth_all_false in Hmark. discriminate Hmark.
Qed.

Lemma drop_duplicates_distinct_witness :
  nth_error (rows (drop_duplicates table_a1223)) 1 = Some [Num 2]
  /\ nth_error (rows (drop_duplicates table_a1223)) 2 = Some [Num 3]
  /\ row_eqb [Num 3] [Num 2] = false.
Proof.
  split; [reflexivity|]. split; [reflexivity|].
  apply (@drop_duplicates_distinct table_a1223) with (i := 1%nat) (j := 2%nat).
  - unfold well_formed, table_a1223, nrows; simpl. repeat constructor.
  - discriminate.
  - lia.
  - reflexivity.
  - reflexivity.
Defined.

Lemma kept_covers (rs : list (list cell)) :
  forall (seen : list (list cell)) (r : list cell),
    In r rs ->
    existsb (row_eqb r) seen = true
    \/ exists r', In r' (drop_where (duplicated_from seen rs) rs)
                  /\ row_eqb r r' = true.
Proof.
  induction rs as [|r0 rs IH]; intros seen r Hr; [contradiction|].
  simpl. destruct Hr as [->|Hr].
  - destruct (existsb (row_eqb r) seen) eqn:E; [now left|].
    right. exists r. split; [now left|apply row_eqb_refl].
  - destruct (IH (seen ++ [r0]) r Hr) as [H|[r' [Hin He]]].
    + rewrite existsb_app in H. simpl in H. rewrite orb_false_r in H.
      apply orb_true_iff in H. destruct H as [H|H]; [now left|].
      destruct (existsb (row_eqb r0) seen) eqn:E.
      * left. apply existsb_exists in E. destruct E as [s [Hs Hrs]].
        apply existsb_exists. exists s. split; [exact Hs|].
        eapply row_eqb_trans; eauto.
      * right. exists r0. split; [now left|exact H].
    + right. exists r'. split; [|exact He].
      destruct (existsb (row_eqb r0) seen); [exact Hin|now right].
Qed.

(** X10: The removal loses no distinct row, and invents none: every row of the
    table equals a row that is kept, and every kept row is a row of the
    table. *)
Lemma drop_duplicates_covers (df : Frame) :
  well_formed df ->
  columns df <> [] ->
  (forall r, In r (rows df) ->
     exists r', In r' (rows (drop_duplicates df)) /\ row_eqb r r' = true)
  /\ (forall r, In r (rows (drop_duplicates df)) -> In r (rows df))
  /\ (nrows (drop_duplicates df) <= nrows df)%nat.
Proof.
  intros Hwf Hc. rewrite (rows_drop_duplicates Hwf Hc). unfold duplicated.
  split; [|split].
  - intros r Hr. destruct (kept_covers (rows df) [] r Hr) as [H|H];
      [discriminate H|exact H].
  - intros r. apply drop_where_In.
  - unfold drop_duplicates. destruct (empty df); [apply Nat.le_refl|].
    unfold nrows. simpl. generalize (duplicated df) as mask.
    induction (index df) as [|x l IH]; intros [|b m]; simpl; try lia.
    specialize (IH m). destruct b; simpl; lia.
Qed.

Lemma drop_duplicates_covers_witness :
  (exists r', In r' (rows (drop_duplicates table_a1223))
              /\ row_eqb [Num 2] r' = true)
  /\ (nrows (drop_duplicates table_a1223) <= nrows table_a1223)%nat.
Proof.
  assert (Hwf : well_formed table_a1223).
  { unfold well_formed, table_a1223, nrows; simpl. repeat constructor. }
  assert (Hc : columns table_a1223 <> []) by discriminate.
  destruct (@drop_duplicates_covers table_a1223 Hwf Hc) as [H1 [_ H3]].
  split; [|exact H3].
  apply H1. right. left. reflexivity.
Defined.

(** ** More on the imputation *)

Lemma fillna_nothing (m : option Q) (vs : list cell) :
  existsb is_missing vs = false -> fillna m vs = vs.
Proof.
  destruct m as [q|]; [|reflexivity]. simpl.
  induction vs as [|v vs IH]; simpl; [reflexivity|].
  intros H. apply orb_false_iff in H. destruct H as [H1 H2].
  rewrite H1, (IH H2). reflexivity.
Qed.

(** X11: The imputation never changes an entry that is present, and a column
    with nothing present (its mean is NaN) is left as it is. *)
Lemma fill_missing_values_keeps_present (df : Frame) (j : nat) (c : column cell) :
  nth_error (columns df) j = Some c ->
  exists c', nth_error (columns (fill_missing_values df)) j = Some c'
    /\ length (cvalues c') = length (cvalues c)
    /\ (forall i v, nth_error (cvalues c) i = Some v -> v <> Missing ->
          nth_error (cvalues c') i = Some v)
    /\ (present (cvalues c) = [] -> c' = c).
Proof.
  intros Hj. unfold fill_missing_values. simpl. rewrite nth_error_map, Hj. simpl.
  eexists. split; [reflexivity|].
  destruct (is_numeric c); [|repeat split; auto].
  unfold mean. destruct (present (cvalues c)) as [|q qs]; simpl.
  - repeat split; auto. destruct c; reflexivity.
  - split; [apply length_map|]. split; [|discriminate].
    intros i v Hi Hv. rewrite nth_error_map, Hi. simpl.
    destruct v; simpl; congruence.
Qed.

Lemma fill_missing_values_keeps_present_witness :
  exists c', nth_error (columns (fill_missing_values table_city_size)) 1 = Some c'
    /\ nth_error (cvalues c') 0 = Some (Num 3).
Proof.
  destruct (@fill_missing_values_keeps_present table_city_size 1
              {| cname := Text "size"; cdtype := Numeric; cvalues := [Num 3; Missing] |}
              eq_refl) as [c' [H1 [_ [H2 _]]]].
  exists c'. split; [exact H1|].
  apply (H2 0%nat (Num 3)); [reflexivity|discriminate].
Defined.

(** X12: Filling a second time changes nothing. *)
Lemma fill_missing_values_idempotent (df : Frame) :
  fill_missing_values (fill_missing_values df) = fill_missing_values df.
Proof.
  unfold fill_missing_values. simpl. f_equal.
  rewrite map_map. apply map_ext. intros c.
  destruct (is_numeric c) eqn:E; [|now rewrite E].
  unfold is_numeric, set_values in *. simpl. rewrite E. f_equal.
  destruct (mean (cvalues c)) as [q|] eqn:Em.
  - apply fillna_nothing. apply fillna_no_missing.
  - simpl. now rewrite Em.
Qed.

(** ** More on the selection *)

Lemma filter_label_self (cols : list (column cell)) (c : column cell) :
  distinct_labels cols = true ->
  In c cols ->
  filter (fun c' => cell_eqb (cname c') (cname c)) cols = [c].
Proof.
  induction cols as [|d cols IH]; simpl; [contradiction|].
  intros Hd Hin. apply andb_true_iff in Hd. destruct Hd as [Hd1 Hd2].
  apply negb_true_iff in Hd1.
  destruct (cell_eqb (cname d) (cname c)) eqn:E.
  - destruct Hin as [->|Hin].
    + f_equal. clear - Hd1. induction cols as [|e cols IH]; simpl in *; [reflexivity|].
      apply orb_false_iff in Hd1. destruct Hd1 as [H1 H2]. rewrite H1. auto.
    + rewrite cell_eqb_sym in E. rewrite (has_label_false _ _ Hd1 c Hin) in E.
      discriminate E.
  - destruct Hin as [->|Hin]; [rewrite cell_eqb_refl in E; discriminate E|auto].
Qed.

Lemma labels_all_present (df : Frame) :
  forallb (fun n => has_label n (columns df)) (labels df) = true.
Proof.
  apply forallb_forall. intros n Hn. unfold labels in Hn.
  apply in_map_iff in Hn. destruct Hn as [c [<- Hc]].
  apply has_label_In. exists c. split; [exact Hc|apply cell_eqb_refl].
Qed.

Lemma select_sublist (cols : list (column cell)) :
  distinct_labels cols = true ->
  forall sub, incl sub cols ->
    flat_map (fun n => filter (fun c => cell_eqb (cname c) n) cols)
             (map (@cname cell) sub) = sub.
Proof.
  intros Hd. induction sub as [|c sub IH]; intros Hincl; simpl; [reflexivity|].
  rewrite (filter_label_self cols c Hd (Hincl c (or_introl eq_refl))).
  simpl. f_equal. apply IH. intros x Hx. apply Hincl. now right.
Qed.

(** X13: The default of the multiselect, every label in the table's order,
    selects the table itself. *)
Lemma select_columns_default (df : Frame) :
  distinct_labels (columns df) = true ->
  select_columns (labels df) df = Ok df.
Proof.
  intros Hd. unfold select_columns. rewrite labels_all_present.
  unfold labels. rewrite (select_sublist Hd (incl_refl _)).
  destruct df; reflexivity.
Qed.

Lemma select_columns_default_witness :
  select_columns (labels table_city_size) table_city_size = Ok table_city_size.
Proof. exact (@select_columns_default table_city_size eq_refl). Defined.

(** An empty selection keeps the rows and no column. *)
Lemma select_columns_nothing (df : Frame) :
  select_columns [] df = Ok {| index := index df; columns := [] |}.
Proof. reflexivity. Qed.

(** ** More on the scaling *)

Lemma scale_raise_kind (sqrtQ : Q -> Q) (m : scaling_method) (df : Frame) (e : exn) :
  scale sqrtQ m df = Raise e -> e = ValueError.
Proof.
  unfold scale, fit_transform. destruct m.
  - intros H. discriminate H.
  - destruct (nrows df); [congruence|].
    destruct (numeric_block df); [congruence|intros H; discriminate H].
  - destruct (nrows df); [congruence|].
    destruct (numeric_block df); [congruence|intros H; discriminate H].
Qed.

(** X14: When a scaling method is chosen and the table has no row or no
    column of a numeric dtype, the scaler raises ValueError. *)
Lemma scale_refuses_empty_block (sqrtQ : Q -> Q) (m : scaling_method) (df : Frame) :
  m <> NoScaling ->
  nrows df = 0%nat \/ (forall c, In c (columns df) -> is_numeric c = false) ->
  scale sqrtQ m df = Raise ValueError.
Proof.
  intros Hm [Hn|Hc]; apply scale_raises; auto.
  right. unfold numeric_block.
  replace (filter (@is_numeric cell) (columns df)) with (@nil (column cell));
    [reflexivity|].
  symmetry. induction (columns df) as [|c cs IH]; [reflexivity|]. simpl.
  rewrite (Hc c (or_introl eq_refl)). apply IH.
  intros c' Hc'. apply Hc. now right.
Qed.

Lemma scale_refuses_empty_block_witness :
  scale (fun q => q) MinMax
        {| index := [0; 1]%nat;
           columns := [ {| cname := Text "city"; cdtype := Object;
                           cvalues := [Text "Oslo"; Text "Rome"] |} ] |}
  = Raise ValueError.
Proof.
  apply scale_refuses_empty_block; [discriminate|].
  right. intros c [<-|[]]. reflexivity.
Defined.

(** ** More on the conversion *)

(** X21: When the codec of the chosen format refuses the table, nothing is
    offered and no file is written: the run ends with the codec's
    exception and the world as it was. *)
Lemma convert_codec_failure (to_csv to_excel to_parquet : Frame -> result bytes)
    (to_json : Frame -> result string) (df : Frame) (w : world) (e : exn) :
  (to_csv df = Raise e ->
   convert_and_download to_csv to_excel to_parquet to_json CSV df w = (w, Some e))
  /\ (to_excel df = Raise e ->
   convert_and_download to_csv to_excel to_parquet to_json Excel df w = (w, Some e))
  /\ (to_json df = Raise e ->
   convert_and_download to_csv to_excel to_parquet to_json JSON df w = (w, Some e))
  /\ (to_parquet df = Raise e ->
   convert_and_download to_csv to_excel to_parquet to_json Parquet df w = (w, Some e)).
Proof.
  unfold convert_and_download, encode.
  repeat split; intros H; rewrite H; reflexivity.
Qed.

(** ** The stages together *)

Lemma outliers_labels (df : Frame) : labels (outliers df) = labels df.
Proof. unfold labels, outliers. simpl. rewrite map_map. reflexivity. Qed.

Lemma select_columns_index (selected : list cell) (df out : Frame) :
  select_columns selected df = Ok out -> index out = index df.
Proof.
  unfold select_columns.
  destruct (forallb _ selected); intros H; [|discriminate H].
  injection H as <-. reflexivity.
Qed.

Lemma scale_index (sqrtQ : Q -> Q) (m : scaling_method) (df out : Frame) :
  scale sqrtQ m df = Ok out -> index out = index df.
Proof.
  unfold scale. destruct m.
  - intros H. injection H as <-. reflexivity.
  - destruct (fit_transform _ _ _); intros H; [|discriminate H].
    injection H as <-. reflexivity.
  - destruct (fit_transform _ _ _); intros H; [|discriminate H].
    injection H as <-. reflexivity.
Qed.

(** X22: With no button pressed, the default selection, no scaling and the
    checkbox clear, a run leaves the merged table as it is. *)
Lemma run_stages_default (sqrtQ : Q -> Q) (merged_df : Frame) :
  distinct_labels (columns merged_df) = true ->
  run_stages sqrtQ
    {| remove_duplicates := false; fill_missing := false;
       selected_columns := labels merged_df;
       scaling := NoScaling; detect_outliers := false |}
    merged_df
  = Ok (merged_df, None).
Proof.
  intros Hd. unfold run_stages, select_columns. simpl.
  rewrite labels_all_present. unfold labels.
  rewrite (select_sublist Hd (incl_refl _)). simpl.
  destruct merged_df; reflexivity.
Qed.

Lemma run_stages_default_witness :
  run_stages (fun q => q)
    {| remove_duplicates := false; fill_missing := false;
       selected_columns := labels table_city_size;
       scaling := NoScaling; detect_outliers := false |}
    table_city_size
  = Ok (table_city_size, None).
Proof. exact (@run_stages_default (fun q => q) table_city_size eq_refl). Defined.

(** X23: On a merged table with distinct labels and a selection that names
    no label twice, a run that ends normally keeps the rows that duplicate
    removal left, in their order: imputation, selection and scaling do not
    touch the index, and the frame of line 82 has the index and the labels
    of the final table.  A run that ends in an exception ends in KeyError
    (selection) or ValueError (scaling). *)
Lemma run_stages_rows (sqrtQ : Q -> Q) (ui : choices) (merged_df : Frame) :
  distinct_labels (columns merged_df) = true ->
  distinct_cells (selected_columns ui) = true ->
  match run_stages sqrtQ ui merged_df with
  | Ok (df, o) =>
      index df = index (if remove_duplicates ui
                        then drop_duplicates merged_df else merged_df)
      /\ match o with
         | Some out => detect_outliers ui = true
                       /\ index out = index df /\ labels out = labels df
         | None => detect_outliers ui = false
         end
  | Raise e => e = KeyError \/ e = ValueError
  end.
Proof.
  intros _ _. unfold run_stages.
  set (df1 := if remove_duplicates ui then drop_duplicates merged_df else merged_df).
  set (df2 := if fill_missing ui then fill_missing_values df1 else df1).
  assert (H2 : index df2 = index df1).
  { unfold df2. destruct (fill_missing ui); reflexivity. }
  destruct (select_columns (selected_columns ui) df2) as [df3|e] eqn:Es.
  - apply select_columns_index in Es.
    destruct (scale sqrtQ (scaling ui) df3) as [df4|e] eqn:Ec.
    + apply scale_index in Ec. split; [congruence|].
      destruct (detect_outliers ui); [|reflexivity].
      split; [reflexivity|]. split; [reflexivity|].
      apply outliers_labels.
    + right. exact (scale_raise_kind _ _ _ Ec).
  - left. unfold select_columns in Es.
    destruct (forallb _ (selected_columns ui)); [discriminate Es|congruence].
Qed.

Lemma run_stages_rows_witness :
  match run_stages (fun q => q)
          {| remove_duplicates := true; fill_missing := true;
             selected_columns := [Text "size"];
             scaling := MinMax; detect_outliers := true |}
          table_city_size with
  | Ok (df, o) =>
      index df = index (drop_duplicates table_city_size)
      /\ match o with
         | Some out => true = true /\ index out = index df /\ labels out = labels df
         | None => true = false
         end
  | Raise e => e = KeyError \/ e = ValueError
  end.
Proof.
  exact (@run_stages_rows (fun q => q)
           {| remove_duplicates := true; fill_missing := true;
              selected_columns := [Text "size"];
              scaling := MinMax; detect_outliers := true |}
           table_city_size eq_refl eq_refl).
Defined.
